(** * AgenticCodeReviewer: the review service ([service.py])

    A shallow embedding of the two HTTP endpoints of [service.py],
    [review] and [inline_suggestion], together with the parts of the
    Python runtime they lean on (temporary directories, [shutil.rmtree],
    [subprocess], UTF-8 decoding, [str.strip], dictionary lookups), and
    the properties of the service that follow from the code.

    Conventions.  Stateful code runs in a monad [SE] that threads a state,
    may raise a Python exception, and records what it does to the outside
    world in a trace of events.  The state of [review] is the disk (the
    entries under the temporary-storage root); the endpoints' answers are
    a body with status 200 or the status and detail of an
    [HTTPException].  What the service calls without defining it (the git
    client, the names drawn by [tempfile], the two backends of
    [reviewer.reviewer], the [openai] library) and what depends on the
    platform (which operations the file system allows, which of the two
    walks of [shutil.rmtree] runs, [os.TMP_MAX]) is a field of the record
    [env], about which nothing is assumed unless a statement says so.
    Library code follows CPython 3.11.  A request is one that the
    framework has validated against its model (it answers 422 to the
    others before the endpoint runs). *)

From Stdlib Require Import ZArith QArith List Ascii String Lia Bool.
From stdpp Require Import base option list gmap pretty.
Import ListNotations.
Set Warnings "-register-all".
Local Open Scope Z_scope.

(** ** Python values *)

(** A Python [str] is a sequence of Unicode code points. *)
Abbreviation pystr := (list Z) (only parsing).

(** A [str] literal of the source, written in ASCII. *)
Definition U (s : string) : pystr :=
  List.map (fun a => Z.of_N (N_of_ascii a)) (list_ascii_of_string s).

(** [str(n)] of an [int]. *)
Definition str_int (n : Z) : pystr := U (pretty n).

(** [sep.join(parts)]. *)
Fixpoint join (sep : pystr) (parts : list pystr) : pystr :=
  match parts with
  | [] => []
  | [p] => p
  | p :: ps => p ++ sep ++ join sep ps
  end.

(** A lower-case hexadecimal digit, and a number in two and in four of
    them. *)
Definition hex_digit (n : Z) : Z := if n <? 10 then 48 + n else 87 + n.
Definition hex2 (c : Z) : pystr := [hex_digit (c / 16); hex_digit (c mod 16)].
Definition hex4 (c : Z) : pystr :=
  [hex_digit (c / 4096); hex_digit ((c / 256) mod 16);
   hex_digit ((c / 16) mod 16); hex_digit (c mod 16)].

(** How [repr] writes one character of a [str] quoted with [quote]: the
    quote and the backslash are escaped, tab, newline and carriage return
    have their letters, the other characters that are not printable are
    written by number.  Of the characters above U+00FF only the
    surrogates are taken as not printable. *)
Definition repr_char (quote c : Z) : pystr :=
  if (c =? quote) || (c =? 92) then [92; c]
  else if c =? 9 then [92; 116]
  else if c =? 10 then [92; 110]
  else if c =? 13 then [92; 114]
  else if (c <? 32) || (c =? 127) then 92 :: 120 :: hex2 c
  else if c <? 127 then [c]
  else if (c <? 161) || (c =? 173) then 92 :: 120 :: hex2 c
  else if (55296 <=? c) && (c <? 57344) then 92 :: 117 :: hex4 c
  else [c].

(** [repr(s)] of a [str]: in single quotes, or in double quotes when [s]
    has a single quote and no double quote; and [repr] (also [str]) of a
    list of [str]. *)
Definition repr_str (s : pystr) : pystr :=
  let quote :=
    if existsb (Z.eqb 39) s && negb (existsb (Z.eqb 34) s) then 34 else 39 in
  quote :: flat_map (repr_char quote) s ++ [quote].
Definition repr_list (l : list pystr) : pystr :=
  U "[" ++ join (U ", ") (List.map repr_str l) ++ U "]".

(** Truthiness of an [Optional[str]] and of an [Optional[int]]. *)
Definition truthy_str (o : option pystr) : bool :=
  match o with
  | Some (_ :: _) => true
  | _ => false
  end.

Definition truthy_int (o : option Z) : bool :=
  match o with
  | Some n => negb (n =? 0)
  | None => false
  end.

(** [o or ""] for an [Optional[str]]. *)
Definition or_empty (o : option pystr) : pystr :=
  if truthy_str o then default [] o else [].

(** ** Exceptions *)

Inductive exn :=
| CalledProcessError (cmd : list pystr) (returncode : Z)
| FileExistsError (msg : pystr)
| FileNotFoundError (what : pystr) (path : pystr)
| NotADirectoryError (what : pystr) (path : pystr)
| IsADirectoryError (what : pystr) (path : pystr)
| PermissionError (what : pystr) (path : pystr)
| DirectoryNotEmpty (what : pystr) (path : pystr)
| KeyError (key : pystr)
| TypeError (msg : pystr)
| AttributeError (msg : pystr)
| IndexError (msg : pystr)
| OtherError (msg : pystr)
| HTTPException (status_code : Z) (detail : pystr).

(** [isinstance(e, subprocess.CalledProcessError)]. *)
Definition is_CalledProcessError (e : exn) : bool :=
  match e with
  | CalledProcessError _ _ => true
  | _ => false
  end.

(** The name of a signal in [signal.Signals], on Linux. *)
Definition signal_name (n : Z) : option string :=
  match n with
  | 1 => Some "SIGHUP"%string
  | 2 => Some "SIGINT"%string
  | 3 => Some "SIGQUIT"%string
  | 4 => Some "SIGILL"%string
  | 5 => Some "SIGTRAP"%string
  | 6 => Some "SIGABRT"%string
  | 7 => Some "SIGBUS"%string
  | 8 => Some "SIGFPE"%string
  | 9 => Some "SIGKILL"%string
  | 10 => Some "SIGUSR1"%string
  | 11 => Some "SIGSEGV"%string
  | 12 => Some "SIGUSR2"%string
  | 13 => Some "SIGPIPE"%string
  | 14 => Some "SIGALRM"%string
  | 15 => Some "SIGTERM"%string
  | 16 => Some "SIGSTKFLT"%string
  | 17 => Some "SIGCHLD"%string
  | 18 => Some "SIGCONT"%string
  | 19 => Some "SIGSTOP"%string
  | 20 => Some "SIGTSTP"%string
  | 21 => Some "SIGTTIN"%string
  | 22 => Some "SIGTTOU"%string
  | 23 => Some "SIGURG"%string
  | 24 => Some "SIGXCPU"%string
  | 25 => Some "SIGXFSZ"%string
  | 26 => Some "SIGVTALRM"%string
  | 27 => Some "SIGPROF"%string
  | 28 => Some "SIGWINCH"%string
  | 29 => Some "SIGIO"%string
  | 30 => Some "SIGPWR"%string
  | 31 => Some "SIGSYS"%string
  | 34 => Some "SIGRTMIN"%string
  | 64 => Some "SIGRTMAX"%string
  | _ => None
  end.

(** [str(e)].  [CalledProcessError] prints its command and its exit
    status, or the signal that ended the child when the status is
    negative; an error of the operating system prints the text the
    platform gave it ([what], as ["[Errno 13] Permission denied"]) and
    the [repr] of the file name; [KeyError] prints the [repr] of the key;
    the [HTTPException] of Starlette, which FastAPI's extends, prints
    ["<status>: <detail>"]. *)
Definition str_exn (e : exn) : pystr :=
  match e with
  | CalledProcessError cmd rc =>
      if rc <? 0 then
        match signal_name (- rc) with
        | Some name =>
            U "Command '" ++ repr_list cmd ++ U "' died with <Signals."
              ++ U name ++ U ": " ++ str_int (- rc) ++ U ">."
        | None =>
            U "Command '" ++ repr_list cmd ++ U "' died with unknown signal "
              ++ str_int (- rc) ++ U "."
        end
      else U "Command '" ++ repr_list cmd
             ++ U "' returned non-zero exit status " ++ str_int rc ++ U "."
  | FileExistsError msg => U "[Errno 17] " ++ msg
  | FileNotFoundError what p
  | NotADirectoryError what p
  | IsADirectoryError what p
  | PermissionError what p
  | DirectoryNotEmpty what p => what ++ U ": " ++ repr_str p
  | KeyError k => repr_str k
  | TypeError msg => msg
  | AttributeError msg => msg
  | IndexError msg => msg
  | OtherError msg => msg
  | HTTPException sc d => str_int sc ++ U ": " ++ d
  end.

(** ** A state, error and trace monad *)

(** What the service does to the outside world, in order.  A child
    process that ran is recorded with its exit status, a command for which
    [subprocess] raised before a child existed apart; an operation on the
    file system is recorded with its path and whether it succeeded. *)
Inductive event :=
| EvMkdtemp (path : pystr)
| EvSpawn (argv : list pystr) (cwd : option pystr) (returncode : Z)
| EvNoSpawn (argv : list pystr) (cwd : option pystr)
| EvList (path : pystr) (ok : bool)
| EvUnlink (path : pystr) (ok : bool)
| EvRmdir (path : pystr) (ok : bool)
| EvChmod (path : pystr) (mode : Z) (ok : bool).

Definition SE (S A : Type) : Type := S -> (exn + A) * S * list event.

Definition ret {S A} (a : A) : SE S A := fun s => (inr a, s, []).
Definition raise {S A} (e : exn) : SE S A := fun s => (inl e, s, []).
Definition emit {S} (ev : event) : SE S unit := fun s => (inr tt, s, [ev]).
Definition get {S} : SE S S := fun s => (inr s, s, []).
Definition put {S} (s : S) : SE S unit := fun _ => (inr tt, s, []).

Definition bind {S A B} (m : SE S A) (k : A -> SE S B) : SE S B :=
  fun s =>
    match m s with
    | (inl e, s1, t1) => (inl e, s1, t1)
    | (inr a, s1, t1) =>
        match k a s1 with
        | (r, s2, t2) => (r, s2, t1 ++ t2)
        end
    end.

#[global] Instance SE_ret {S} : MRet (SE S) := fun A a => ret a.
#[global] Instance SE_bind {S} : MBind (SE S) := fun A B k m => bind m k.

(** [try: body finally: cleanup].  The cleanup always runs; an exception
    raised by the cleanup replaces the outcome of the body. *)
Definition try_finally {S A} (body : SE S A) (cleanup : SE S unit) : SE S A :=
  fun s =>
    match body s with
    | (r, s1, t1) =>
        match cleanup s1 with
        | (inl e, s2, t2) => (inl e, s2, t1 ++ t2)
        | (inr _, s2, t2) => (r, s2, t1 ++ t2)
        end
    end.

(** [try: body except OSError as e: handler(e)]: every exception the
    file-system primitives raise is an [OSError]. *)
Definition try_except {S A} (body : SE S A) (handler : exn -> SE S A) : SE S A :=
  fun s =>
    match body s with
    | (inl e, s1, t1) =>
        match handler e s1 with
        | (r, s2, t2) => (r, s2, t1 ++ t2)
        end
    | (inr a, s1, t1) => (inr a, s1, t1)
    end.

(** ** The file system *)

(** The attributes of an entry: its permission bits, as [os.stat] gives
    them (on Windows [0o444] or [0o555] for an entry with the read-only
    attribute), and whether another process holds it. *)
Record meta := Meta { mode : Z; busy : bool }.

(** A file, or a directory with its entries by name, in the order in
    which [os.scandir] lists them. *)
Inductive tree :=
| File (m : meta)
| Dir (m : meta) (entries : list (pystr * tree)).

Definition tree_meta (t : tree) : meta :=
  match t with
  | File m => m
  | Dir m _ => m
  end.

Definition set_meta (m : meta) (t : tree) : tree :=
  match t with
  | File _ => File m
  | Dir _ es => Dir m es
  end.

(** The kinds of failure of an operation other than a refusal. *)
Inductive oskind := ENOENT | ENOTDIR | EISDIR | ENOTEMPTY.

(** What the platform decides.  Whether an operation is allowed depends on
    the attributes of the entry and of the directory it is in (on POSIX
    removing an entry takes write and search permission on the directory;
    on Windows it takes an entry that is neither read-only nor in use).
    Each rule takes the attributes of the directory first.  [denial] is
    the text of the [PermissionError] of an operation that is refused on
    an entry, [strerror] that of the other failures, [sep] is [os.sep].
    [fd_based] tells which walk [shutil.rmtree] does: [_rmtree_safe_fd]
    where the platform has the descriptor-relative calls (Linux), else
    [_rmtree_unsafe] (Windows). *)
Record fsrules := {
  can_list : meta -> meta -> bool;
  can_remove : meta -> meta -> bool;
  can_chmod : meta -> meta -> bool;
  chmod_result : Z -> meta -> meta;
  denial : meta -> pystr;
  strerror : oskind -> pystr;
  sep : pystr;
  fd_based : bool
}.

(** [stat.S_IWRITE], the owner-write bit [0o200]. *)
Definition S_IWRITE : Z := 128.

(** [os.path.join(path, name)], for a [path] that does not end with a
    separator and a relative [name]. *)
Definition path_join (R : fsrules) (path name : pystr) : pystr :=
  path ++ sep R ++ name.

(** The functions of [os] are looked at through the entry at their path:
    the rules of the platform, the attributes of the directory the entry
    is in, and the entry itself, [None] when there is none (any more). *)
Record view := View {
  v_rules : fsrules;
  v_parent : meta;
  v_entry : option tree
}.

Abbreviation FS := (SE view) (only parsing).

Definition put_entry (o : option tree) : FS unit :=
  fun v => (inr tt, View (v_rules v) (v_parent v) o, []).

(** The exceptions of the primitives, with the texts of the platform. *)
Definition os_error (R : fsrules) (k : oskind) (path : pystr) : exn :=
  match k with
  | ENOENT => FileNotFoundError (strerror R k) path
  | ENOTDIR => NotADirectoryError (strerror R k) path
  | EISDIR => IsADirectoryError (strerror R k) path
  | ENOTEMPTY => DirectoryNotEmpty (strerror R k) path
  end.

Definition refused (R : fsrules) (m : meta) (path : pystr) : exn :=
  PermissionError (denial R m) path.

(** [os.chmod(path, mode)]. *)
Definition os_chmod (path : pystr) (mode : Z) : FS unit :=
  v ← get;
  match v_entry v with
  | None =>
      emit (EvChmod path mode false) ;; raise (os_error (v_rules v) ENOENT path)
  | Some t =>
      if can_chmod (v_rules v) (v_parent v) (tree_meta t) then
        emit (EvChmod path mode true) ;;
        put_entry
          (Some (set_meta (chmod_result (v_rules v) mode (tree_meta t)) t))
      else
        emit (EvChmod path mode false) ;;
        raise (refused (v_rules v) (tree_meta t) path)
  end.

(** [os.unlink(path)]. *)
Definition os_unlink (path : pystr) : FS unit :=
  v ← get;
  match v_entry v with
  | None =>
      emit (EvUnlink path false) ;; raise (os_error (v_rules v) ENOENT path)
  | Some (Dir _ _) =>
      emit (EvUnlink path false) ;; raise (os_error (v_rules v) EISDIR path)
  | Some (File m) =>
      if can_remove (v_rules v) (v_parent v) m
      then emit (EvUnlink path true) ;; put_entry None
      else emit (EvUnlink path false) ;; raise (refused (v_rules v) m path)
  end.

(** [os.rmdir(path)]. *)
Definition os_rmdir (path : pystr) : FS unit :=
  v ← get;
  match v_entry v with
  | None =>
      emit (EvRmdir path false) ;; raise (os_error (v_rules v) ENOENT path)
  | Some (File _) =>
      emit (EvRmdir path false) ;; raise (os_error (v_rules v) ENOTDIR path)
  | Some (Dir m (_ :: _)) =>
      emit (EvRmdir path false) ;;
      raise (os_error (v_rules v) ENOTEMPTY path)
  | Some (Dir m []) =>
      if can_remove (v_rules v) (v_parent v) m
      then emit (EvRmdir path true) ;; put_entry None
      else emit (EvRmdir path false) ;; raise (refused (v_rules v) m path)
  end.

(** Listing a directory: [os.scandir(path)] in [_rmtree_unsafe]; the
    entry's [stat], [os.open(path, os.O_RDONLY)] and [os.scandir] of the
    descriptor in [_rmtree_safe_fd]; for its outcome only. *)
Definition os_list (path : pystr) : FS unit :=
  v ← get;
  match v_entry v with
  | None =>
      emit (EvList path false) ;; raise (os_error (v_rules v) ENOENT path)
  | Some (File _) =>
      emit (EvList path false) ;; raise (os_error (v_rules v) ENOTDIR path)
  | Some (Dir m _) =>
      if can_list (v_rules v) (v_parent v) m
      then emit (EvList path true)
      else emit (EvList path false) ;; raise (refused (v_rules v) m path)
  end.

(** [os.open(path)], as a callback calls the function it is handed: the
    argument [flags] is missing, and Python raises before anything is
    asked of the file system. *)
Definition os_open_bare (path : pystr) : FS unit :=
  raise (TypeError (U "open() missing required argument 'flags' (pos 2)")).

(** The function [shutil.rmtree] reports when it cannot list a directory:
    [os.scandir] in the walk by paths; in the descriptor-based walk
    [os.lstat] or [os.open], of which a handler that could change the
    attributes of the directory has [os.open] to call again (a failed
    [os.lstat] means the directory above gives no search permission, and
    then [os.chmod] fails too). *)
Definition list_func (path : pystr) : FS unit :=
  v ← get;
  if fd_based (v_rules v) then os_open_bare path else os_list path.

(** The [onerror] callback of [shutil.rmtree]: the function that failed,
    its argument and the exception. *)
Definition onerror_t := (pystr -> FS unit) -> pystr -> exn -> FS unit.

(** [on_rm_error] of [review] (service.py, lines 73-75). *)
Definition on_rm_error : onerror_t :=
  fun func path exc_info =>
    os_chmod path S_IWRITE ;;
    func path.

(** [try: func(path) except OSError: onerror(func, path, sys.exc_info())],
    the form of every step of [shutil.rmtree]. *)
Definition attempt (onerror : onerror_t) (func : pystr -> FS unit)
    (path : pystr) : FS unit :=
  try_except (func path) (onerror func path).

(** [shutil.rmtree] of something that is not a directory: the listing
    fails and is reported; when the callback returns, the walk by paths
    goes on to [os.rmdir], the descriptor-based one returns. *)
Definition rmtree_nodir (onerror : onerror_t) (path : pystr) : FS unit :=
  attempt onerror os_list path ;;
  v ← get;
  if fd_based (v_rules v) then mret tt else attempt onerror os_rmdir path.

Definition relist (name : pystr) (o : option tree) : list (pystr * tree) :=
  match o with
  | Some t => [(name, t)]
  | None => []
  end.

(** The body of the loop over the entries of a directory with attributes
    [dm]: a subdirectory is handed to [rmtree], anything else is
    unlinked.  It gives what is left of the entry. *)
Definition rmtree_entry (R : fsrules)
    (rmtree : meta -> pystr -> tree -> (exn + unit) * option tree * list event)
    (onerror : onerror_t) (dm : meta) (fullname : pystr) (child : tree)
    : (exn + unit) * option tree * list event :=
  match child with
  | Dir _ _ => rmtree dm fullname child
  | File _ =>
      let '(r, v, t) :=
        attempt onerror os_unlink fullname (View R dm (Some child)) in
      (r, v_entry v, t)
  end.

(** The loop itself; it gives the entries that are left. *)
Definition rmtree_entries (R : fsrules)
    (rmtree : meta -> pystr -> tree -> (exn + unit) * option tree * list event)
    (onerror : onerror_t) (dm : meta) (path : pystr)
    : list (pystr * tree) -> (exn + unit) * list (pystr * tree) * list event :=
  fix loop (es : list (pystr * tree)) :=
    match es with
    | [] => (inr tt, [], [])
    | (name, child) :: rest =>
        let '(r1, child', t1) :=
          rmtree_entry R rmtree onerror dm (path_join R path name) child in
        match r1 with
        | inl e => (inl e, relist name child' ++ rest, t1)
        | inr _ =>
            let '(r2, rest', t2) := loop rest in
            (r2, relist name child' ++ rest', t1 ++ t2)
        end
    end.

(** [shutil.rmtree(path, onerror=onerror)] of the tree [t] found at [path]
    in a directory with attributes [pm], after [_rmtree_unsafe] and
    [_rmtree_safe_fd]: list the directory, remove each entry (directories
    recursively), then the directory itself; every failure is handed to
    [onerror], and the walk goes on when [onerror] returns.  A directory
    that could not be listed has no entries for the walk by paths, and is
    skipped by the descriptor-based one. *)
Fixpoint rmtree_walk (R : fsrules) (onerror : onerror_t) (pm : meta)
    (path : pystr) (t : tree) : (exn + unit) * option tree * list event :=
  match t with
  | File _ =>
      let '(r, v, tr) := rmtree_nodir onerror path (View R pm (Some t)) in
      (r, v_entry v, tr)
  | Dir m entries =>
      let '(r0, v0, t0) := os_list path (View R pm (Some t)) in
      match r0 with
      | inr _ =>
          let '(r, entries', tr) :=
            rmtree_entries R (rmtree_walk R onerror) onerror m path entries in
          match r with
          | inl e => (inl e, Some (Dir m entries'), t0 ++ tr)
          | inr _ =>
              let '(r3, v3, t3) :=
                attempt onerror os_rmdir path
                  (View R pm (Some (Dir m entries'))) in
              (r3, v_entry v3, t0 ++ tr ++ t3)
          end
      | inl e =>
          let '(r1, v1, t1) := onerror list_func path e v0 in
          match r1 with
          | inl e' => (inl e', v_entry v1, t0 ++ t1)
          | inr _ =>
              if fd_based R then (inr tt, v_entry v1, t0 ++ t1)
              else
                let '(r3, v3, t3) := attempt onerror os_rmdir path v1 in
                (r3, v_entry v3, t0 ++ t1 ++ t3)
          end
      end
  end.

(** The disk: the entries of the temporary-storage root, by path. *)
Abbreviation disk := (gmap pystr tree) (only parsing).

Definition set_entry (path : pystr) (o : option tree) (d : disk) : disk :=
  match o with
  | Some t => <[path := t]> d
  | None => delete path d
  end.

(** [shutil.rmtree(path, onerror=onerror)] on the disk; [pm] are the
    attributes of the temporary-storage root. *)
Definition shutil_rmtree (R : fsrules) (pm : meta) (path : pystr)
    (onerror : onerror_t) : SE disk unit :=
  fun d =>
    let '(r, o, tr) :=
      match d !! path with
      | Some t => rmtree_walk R onerror pm path t
      | None =>
          let '(r, v, tr) := rmtree_nodir onerror path (View R pm None) in
          (r, v_entry v, tr)
      end in
    (r, set_entry path o d, tr).

(** ** Decoding bytes *)

(** A [bytes] object: integers in [0, 256). *)
Abbreviation pybytes := (list Z) (only parsing).

Definition is_cont (b : Z) : bool := (128 <=? b) && (b <? 192).

(** The second byte of a three-byte and of a four-byte sequence has a
    narrower range after the lead bytes [E0], [ED], [F0] and [F4]. *)
Definition second_ok (b1 b2 : Z) : bool :=
  is_cont b2 &&
  (if b1 =? 224 then 160 <=? b2
   else if b1 =? 237 then b2 <? 160
   else if b1 =? 240 then 144 <=? b2
   else if b1 =? 244 then b2 <? 144
   else true).

(** The UTF-8 decoder of CPython, cut into its units: [Some c] for each
    code point decoded, [None] for each run of bytes it reports as one
    error (an invalid start byte; a sequence cut by an invalid
    continuation byte, which is looked at again; a sequence cut by the end
    of the data). *)
Fixpoint utf8_units (bs : pybytes) : list (option Z) :=
  match bs with
  | [] => []
  | b1 :: r1 =>
      if b1 <? 128 then Some b1 :: utf8_units r1
      else if b1 <? 194 then None :: utf8_units r1
      else if b1 <? 224 then
        match r1 with
        | [] => [None]
        | b2 :: r2 =>
            if is_cont b2
            then Some ((b1 - 192) * 64 + (b2 - 128)) :: utf8_units r2
            else None :: utf8_units r1
        end
      else if b1 <? 240 then
        match r1 with
        | [] => [None]
        | b2 :: r2 =>
            if second_ok b1 b2 then
              match r2 with
              | [] => [None]
              | b3 :: r3 =>
                  if is_cont b3
                  then Some ((b1 - 224) * 4096 + (b2 - 128) * 64 + (b3 - 128))
                         :: utf8_units r3
                  else None :: utf8_units r2
              end
            else None :: utf8_units r1
        end
      else if b1 <? 245 then
        match r1 with
        | [] => [None]
        | b2 :: r2 =>
            if second_ok b1 b2 then
              match r2 with
              | [] => [None]
              | b3 :: r3 =>
                  if is_cont b3 then
                    match r3 with
                    | [] => [None]
                    | b4 :: r4 =>
                        if is_cont b4
                        then Some ((b1 - 240) * 262144 + (b2 - 128) * 4096
                                   + (b3 - 128) * 64 + (b4 - 128))
                               :: utf8_units r4
                        else None :: utf8_units r3
                    end
                  else None :: utf8_units r2
              end
            else None :: utf8_units r1
        end
      else None :: utf8_units r1
  end.

(** The [errors] argument of [bytes.decode]. *)
Inductive errors := Strict | Ignore | Replace.

(** U+FFFD, what [errors="replace"] puts in place of an error. *)
Definition REPLACEMENT : Z := 65533.

Definition UnicodeDecodeError : exn :=
  OtherError (U "'utf-8' codec can't decode bytes").

(** [bs.decode("utf-8", errors=...)]. *)
Definition bytes_decode (how : errors) (bs : pybytes) : exn + pystr :=
  let units := utf8_units bs in
  match how with
  | Ignore => inr (omap id units)
  | Replace => inr (List.map (default REPLACEMENT) units)
  | Strict =>
      match mapM id units with
      | Some s => inr s
      | None => inl UnicodeDecodeError
      end
  end.

(** ** Configuration *)

(** What [yaml.safe_load] returns.  A [float] is carried as the rational
    its literal denotes; the service never computes with one. *)
Inductive yaml :=
| YNull
| YBool (b : bool)
| YInt (n : Z)
| YFloat (q : Q)
| YStr (s : pystr)
| YSeq (l : list yaml)
| YMap (m : gmap pystr yaml).

(** [type(v).__name__]. *)
Definition type_name (v : yaml) : pystr :=
  match v with
  | YNull => U "NoneType"
  | YBool _ => U "bool"
  | YInt _ => U "int"
  | YFloat _ => U "float"
  | YStr _ => U "str"
  | YSeq _ => U "list"
  | YMap _ => U "dict"
  end.

(** [v[key]] for a [str] key. *)
Definition getitem (v : yaml) (key : pystr) : exn + yaml :=
  match v with
  | YMap m =>
      match m !! key with
      | Some x => inr x
      | None => inl (KeyError key)
      end
  | YStr _ => inl (TypeError (U "string indices must be integers, not 'str'"))
  | YSeq _ => inl (TypeError (U "list indices must be integers or slices, not str"))
  | _ => inl (TypeError (U "'" ++ type_name v ++ U "' object is not subscriptable"))
  end.

(** [v.get(key, dflt)]. *)
Definition dict_get (v : yaml) (key : pystr) (dflt : yaml) : exn + yaml :=
  match v with
  | YMap m => inr (default dflt (m !! key))
  | _ => inl (AttributeError
                (U "'" ++ type_name v ++ U "' object has no attribute 'get'"))
  end.

(** Lifting a pure outcome into the monad. *)
Definition lift {S A} (r : exn + A) : SE S A :=
  match r with
  | inl e => raise e
  | inr a => mret a
  end.

(** ** Request and response models *)

Record ReviewRequest := {
  diff : option pystr;
  repo_url : option pystr;
  pr_number : option Z;
  base : pystr
}.

Record ReviewResponse := {
  naming_convention : list pystr;
  complexity : list pystr;
  security : list pystr;
  ai_comments : list pystr;
  ai_score : Q
}.

Record InlineSuggestionRequest := {
  fileName : pystr;
  line : pystr;
  lineNumber : Z;
  fullFile : list pystr
}.

Record InlineSuggestionResponse := { suggestedText : pystr }.

(** What an endpoint answers: the model with status 200, or the status
    and detail of the [HTTPException] it raised. *)
Inductive http (A : Type) :=
| Ok200 (body : A)
| HttpError (status_code : Z) (detail : pystr).
Arguments Ok200 {A} body.
Arguments HttpError {A} status_code detail.

(** ** The outside world *)

(** A finished child process: its exit status, its output, and what it
    leaves in the directory it worked in. *)
Record completed := {
  returncode : Z;
  stdout : pybytes;
  written : list (pystr * tree)
}.

(** A chat completion of the AI service, as far as the service reads it:
    [response.choices[0].message.content], any of which may be missing. *)
Record chat_message := { content : option pystr }.
Record chat_choice := { message : option chat_message }.
Record chat_completion := { choices : list chat_choice }.

(** Everything the service calls and does not define, and the platform it
    runs on: the rules of the file system, the attributes of the
    temporary-storage root, the names [tempfile] draws and how many of
    them it tries ([os.TMP_MAX]), the git client, the two backends of
    [reviewer.reviewer] and the chat endpoint of the AI service.  [spawn]
    gives the finished child, or the exception [subprocess] raises when no
    child comes to exist (no git on the path, a NUL in an argument).
    [openai] is what [import openai] and the lookup of
    [openai.chat.completions.create] give: that function, or the
    exception of a library that is missing or too old. *)
Record env := {
  fs : fsrules;
  tempdir : pystr;
  tempdir_meta : meta;
  tmp_max : nat;
  random_name : nat -> pystr;
  spawn :
    list pystr -> option pystr -> list (pystr * tree) -> exn + completed;
  run_rule_checks :
    pystr -> yaml -> option pystr -> option Z -> pystr ->
    exn + gmap pystr (list pystr);
  run_ai_review : pystr -> yaml -> exn + (list pystr * Q);
  openai : exn + (yaml -> pystr -> yaml -> Z -> exn + chat_completion)
}.

(** [openai.chat.completions.create(model=..., messages=[{"role": "user",
    "content": prompt}], temperature=..., max_tokens=...)], with the
    import and the lookup of the function before it. *)
Definition chat_create (E : env) (model : yaml) (prompt : pystr)
    (temperature : yaml) (max_tokens : Z) : exn + chat_completion :=
  match openai E with
  | inl e => inl e
  | inr create => create model prompt temperature max_tokens
  end.

(** The directory [os.mkdir(file, 0o700)] makes. *)
Definition fresh_dir : tree := Dir (Meta 448 false) [].

(** The message of [tempfile] when every name it tried is taken. *)
Definition NO_NAME : pystr := U "No usable temporary directory name found".

(** The loop of [tempfile.mkdtemp]: draw a name, make the directory, go on
    to the next name when it exists; [fuel] names are left to try and [i]
    have been drawn.  The directory is made in [tempfile.gettempdir()],
    which [tempfile] has found to exist and to be writable: [os.mkdir]
    fails there only because the name is taken. *)
Fixpoint mkdtemp_loop (name : nat -> pystr) (fuel i : nat) : SE disk pystr :=
  match fuel with
  | O => raise (FileExistsError NO_NAME)
  | S fuel' =>
      d ← get;
      match d !! name i with
      | Some _ => mkdtemp_loop name fuel' (S i)
      | None =>
          emit (EvMkdtemp (name i)) ;;
          put (<[name i := fresh_dir]> d) ;;
          mret (name i)
      end
  end.

(** The [i]-th path [tempfile.mkdtemp(prefix=prefix)] tries. *)
Definition temp_path (E : env) (prefix : pystr) (i : nat) : pystr :=
  path_join (fs E) (tempdir E) (prefix ++ random_name E i).

(** [tempfile.mkdtemp(prefix=prefix)]. *)
Definition mkdtemp (E : env) (prefix : pystr) : SE disk pystr :=
  mkdtemp_loop (temp_path E prefix) (tmp_max E) 0.

(** The directory a git command works in: its [cwd], or, without one (the
    clone), the target it is given last. *)
Definition workdir (argv : list pystr) (cwd : option pystr) : pystr :=
  default (List.last argv []) cwd.

Definition entries_of (o : option tree) : list (pystr * tree) :=
  match o with
  | Some (Dir _ es) => es
  | _ => []
  end.

Definition set_entries (es : list (pystr * tree)) (t : tree) : tree :=
  match t with
  | Dir m _ => Dir m es
  | File m => File m
  end.

(** [subprocess.run(argv, cwd=cwd, check=True)] and
    [subprocess.check_output(argv, cwd=cwd)]: both raise
    [CalledProcessError] on a non-zero exit status. *)
Definition subprocess_check_output (E : env) (argv : list pystr)
    (cwd : option pystr) : SE disk pybytes :=
  d ← get;
  let ws := workdir argv cwd in
  match spawn E argv cwd (entries_of (d !! ws)) with
  | inl e => emit (EvNoSpawn argv cwd) ;; raise e
  | inr c =>
      emit (EvSpawn argv cwd (returncode c)) ;;
      put (alter (set_entries (written c)) ws d) ;;
      if returncode c =? 0 then mret (stdout c)
      else raise (CalledProcessError argv (returncode c))
  end.

Definition subprocess_run (E : env) (argv : list pystr)
    (cwd : option pystr) : SE disk unit :=
  subprocess_check_output E argv cwd ;; mret tt.

(** ** [POST /review] *)

(** The body of the inner [try] (lines 52-71): clone, fetch, checkout,
    diff, decode. *)
Definition git_diff (E : env) (req : ReviewRequest) (tmp_dir : pystr)
    : SE disk pystr :=
  let url := default [] (repo_url req) in
  let pr := default 0 (pr_number req) in
  subprocess_run E
    [U "git"; U "clone"; U "--depth"; U "1"; url; tmp_dir] None ;;
  subprocess_run E
    [U "git"; U "fetch"; U "origin";
     U "pull/" ++ str_int pr ++ U "/head:pr_branch"] (Some tmp_dir) ;;
  subprocess_run E
    [U "git"; U "checkout"; U "pr_branch"] (Some tmp_dir) ;;
  diff_bytes ← subprocess_check_output E
    [U "git"; U "diff"; U "origin/" ++ base req ++ U "...HEAD"]
    (Some tmp_dir);
  lift (bytes_decode Ignore diff_bytes).

(** Step 1 of [review] (lines 49-78): the unified diff text. *)
Definition resolve_diff (E : env) (req : ReviewRequest) : SE disk pystr :=
  if truthy_str (repo_url req) && truthy_int (pr_number req) then
    tmp_dir ← mkdtemp E (U "ai-review-");
    try_finally
      (git_diff E req tmp_dir)
      (shutil_rmtree (fs E) (tempdir_meta E) tmp_dir on_rm_error)
  else
    mret (or_empty (diff req)).

(** [rules.get(category, [])]. *)
Definition rules_get (rules : gmap pystr (list pystr)) (category : pystr)
    : list pystr :=
  default [] (rules !! category).

(** Step 4 of [review] (lines 93-99). *)
Definition assemble (rules : gmap pystr (list pystr))
    (comments : list pystr) (score : Q) : ReviewResponse :=
  {| naming_convention := rules_get rules (U "naming_convention");
     complexity := rules_get rules (U "complexity");
     security := rules_get rules (U "security");
     ai_comments := comments;
     ai_score := score |}.

(** Steps 2 to 4 of [review] (lines 80-99), for a given diff text. *)
Definition analyse (E : env) (cfg : yaml) (req : ReviewRequest)
    (diff_text : pystr) : SE disk ReviewResponse :=
  rules_cfg ← lift (getitem cfg (U "rules"));
  rules ← lift (run_rule_checks E diff_text rules_cfg
                  (repo_url req) (pr_number req) (base req));
  ai_cfg ← lift (getitem cfg (U "ai_review"));
  ai ← lift (run_ai_review E diff_text ai_cfg);
  mret (assemble rules ai.1 ai.2).

(** The body of the [try] of [review] (lines 48-99). *)
Definition review_body (E : env) (cfg : yaml) (req : ReviewRequest)
    : SE disk ReviewResponse :=
  diff_text ← resolve_diff E req;
  analyse E cfg req diff_text.

(** The two [except] clauses of [review] (lines 101-104). *)
Definition review_except (e : exn) : Z * pystr :=
  if is_CalledProcessError e
  then (500, U "Git error: " ++ str_exn e)
  else (500, str_exn e).

Definition to_http {A} (handler : exn -> Z * pystr) (r : exn + A) : http A :=
  match r with
  | inr a => Ok200 a
  | inl e => HttpError (handler e).1 (handler e).2
  end.

(** [review] (lines 45-104): the answer, the disk it leaves and what it
    did. *)
Definition review (E : env) (cfg : yaml) (req : ReviewRequest) (d : disk)
    : http ReviewResponse * disk * list event :=
  let '(r, d', tr) := review_body E cfg req d in
  (to_http review_except r, d', tr).

(** ** [POST /inline-suggestion] *)

(** [c.isspace()] for one character. *)
Definition isspace (c : Z) : bool :=
  ((9 <=? c) && (c <=? 13)) || ((28 <=? c) && (c <=? 32))
  || (c =? 133) || (c =? 160) || (c =? 5760)
  || ((8192 <=? c) && (c <=? 8202))
  || (c =? 8232) || (c =? 8233) || (c =? 8239) || (c =? 8287)
  || (c =? 12288).

Fixpoint lstrip (s : pystr) : pystr :=
  match s with
  | [] => []
  | c :: r => if isspace c then lstrip r else s
  end.

Definition rstrip (s : pystr) : pystr := rev (lstrip (rev s)).

(** [s.strip()]. *)
Definition strip (s : pystr) : pystr := rstrip (lstrip s).

Definition NL : pystr := [10].

(** The prompt (lines 115-123). *)
Definition prompt (req : InlineSuggestionRequest) : pystr :=
  U "You are a senior Python code reviewer." ++ NL
  ++ U "Given the following file named '" ++ fileName req
  ++ U "', review line " ++ str_int (lineNumber req) ++ U ":" ++ NL
  ++ U "    " ++ line req ++ NL
  ++ U "Here is the complete file context:" ++ NL
  ++ join NL (fullFile req)
  ++ NL ++ NL
  ++ U "Suggest an improved version of the given line, optionally with a helpful inline code comment. Respond ONLY with the suggested code.".

(** [getattr(getattr(choice, "message", None), "content", None)]. *)
Definition choice_content (c : chat_choice) : option pystr :=
  m ← message c; content m.

(** The options of the chat call (lines 125-128): model, temperature and
    [max_tokens]. *)
Definition chat_options (cfg : yaml) : exn + (yaml * yaml * Z) :=
  match dict_get cfg (U "ai_review") (YMap ∅) with
  | inl e => inl e
  | inr section =>
      match dict_get section (U "model") (YStr (U "gpt-4o-mini")) with
      | inl e => inl e
      | inr model =>
          match dict_get cfg (U "ai_review") (YMap ∅) with
          | inl e => inl e
          | inr section' =>
              match dict_get section' (U "temperature") (YFloat 0.2) with
              | inl e => inl e
              | inr temperature => inr (model, temperature, 100)
              end
          end
      end
  end.

(** What is made of the completion (lines 130-136). *)
Definition suggestion_of (response : chat_completion)
    : exn + InlineSuggestionResponse :=
  match choices response with
  | [] => inl (IndexError (U "list index out of range"))
  | choice :: _ =>
      let content := choice_content choice in
      if negb (truthy_str content)
      then inl (HTTPException 500 (U "No suggestion returned from AI model."))
      else
        let suggestion := strip (default [] content) in
        inr {| suggestedText := suggestion |}
  end.

(** The body of the [try] of [inline_suggestion] (lines 113-136): the
    import, the function to call, its arguments, the call, the answer. *)
Definition inline_suggestion_body (E : env) (cfg : yaml)
    (req : InlineSuggestionRequest) : exn + InlineSuggestionResponse :=
  match openai E with
  | inl e => inl e
  | inr create =>
      match chat_options cfg with
      | inl e => inl e
      | inr (model, temperature, max_tokens) =>
          match create model (prompt req) temperature max_tokens with
          | inl e => inl e
          | inr response => suggestion_of response
          end
      end
  end.

(** The [except] clause of [inline_suggestion] (lines 137-138). *)
Definition inline_except (e : exn) : Z * pystr := (500, str_exn e).

(** [inline_suggestion] (lines 107-138). *)
Definition inline_suggestion (E : env) (cfg : yaml)
    (req : InlineSuggestionRequest) : http InlineSuggestionResponse :=
  to_http inline_except (inline_suggestion_body E cfg req).

(** ** Notions used in the statements *)

(** The request asks for a remote diff (line 49). *)
Definition remote (req : ReviewRequest) : bool :=
  truthy_str (repo_url req) && truthy_int (pr_number req).

(** The four git commands of a resolution, with their working directory. *)
Definition git_cmds (req : ReviewRequest) (tmp_dir : pystr)
    : list (list pystr * option pystr) :=
  [ ([U "git"; U "clone"; U "--depth"; U "1";
      default [] (repo_url req); tmp_dir], None);
    ([U "git"; U "fetch"; U "origin";
      U "pull/" ++ str_int (default 0 (pr_number req))
        ++ U "/head:pr_branch"], Some tmp_dir);
    ([U "git"; U "checkout"; U "pr_branch"], Some tmp_dir);
    ([U "git"; U "diff"; U "origin/" ++ base req ++ U "...HEAD"],
     Some tmp_dir) ].

(** The child processes of a trace, in order, with their exit status. *)
Definition spawned (tr : list event) : list (list pystr * Z) :=
  omap (fun ev => match ev with
                  | EvSpawn argv _ rc => Some (argv, rc)
                  | _ => None
                  end) tr.

(** The directories a trace creates. *)
Definition created (tr : list event) : list pystr :=
  omap (fun ev => match ev with
                  | EvMkdtemp p => Some p
                  | _ => None
                  end) tr.

(** The trace of commands that exit with the given statuses. *)
Definition spawns (cmds : list (list pystr * option pystr)) (rcs : list Z)
    : list event :=
  zip_with (fun c rc => EvSpawn c.1 c.2 rc) cmds rcs.

(** The trace of a resolution whose first [k] commands exit with status
    0 and whose next one ends as [last]: with an exit status, or with the
    exception of a child that did not come to exist. *)
Definition git_trace (req : ReviewRequest) (tmp_dir : pystr) (k : nat)
    (last : exn + Z) : list event :=
  spawns (git_cmds req tmp_dir) (replicate k 0)
  ++ match git_cmds req tmp_dir !! k with
     | Some c =>
         [match last with
          | inr rc => EvSpawn c.1 c.2 rc
          | inl _ => EvNoSpawn c.1 c.2
          end]
     | None => []
     end.

(** The exit statuses of the children of such a resolution: [k] times 0
    and, when the next command got a child, its status. *)
Definition statuses (k : nat) (last : exn + Z) : list Z :=
  replicate k 0 ++ match last with inr rc => [rc] | inl _ => [] end.

(** What such a resolution gives: the decoded output [out] of the last
    command when that exits with status 0, else the exception. *)
Definition git_result (req : ReviewRequest) (tmp_dir : pystr) (k : nat)
    (last : exn + Z) (out : pybytes) : exn + pystr :=
  match last with
  | inl e => inl e
  | inr rc =>
      if rc =? 0 then inr (omap id (utf8_units out))
      else inl (CalledProcessError
                  (nth k (List.map fst (git_cmds req tmp_dir)) []) rc)
  end.

(** The workspace of a remote request and what the git commands leave in
    it: the state of things when the [finally] clause of line 72 is
    reached. *)
Definition git_leaves (E : env) (req : ReviewRequest) (d : disk)
    : option (pystr * tree) :=
  match mkdtemp E (U "ai-review-") d with
  | (inr p, d1, _) =>
      match git_diff E req p d1 with
      | (_, d2, _) => t ← d2 !! p; Some (p, t)
      end
  | _ => None
  end.

(** An entry with attributes [m] in a directory with attributes [pm] can
    be removed at the first try, or at the retry after a [chmod] that
    succeeds. *)
Definition removable_entry (R : fsrules) (pm m : meta) : bool :=
  can_remove R pm m
  || (can_chmod R pm m && can_remove R pm (chmod_result R S_IWRITE m)).

(** Every directory of the tree can be listed and every entry of it can be
    removed in that sense. *)
Fixpoint clearable (R : fsrules) (pm : meta) (t : tree) : bool :=
  match t with
  | File m => removable_entry R pm m
  | Dir m es =>
      can_list R pm m
      && (fix all (es : list (pystr * tree)) : bool :=
            match es with
            | [] => true
            | (_, c) :: rest => clearable R m c && all rest
            end) es
      && removable_entry R pm m
  end.

Definition clearable_entries (R : fsrules) (dm : meta)
    (es : list (pystr * tree)) : bool :=
  forallb (fun e => clearable R dm e.2) es.

(** The paths of the files of a tree found at [path]. *)
Fixpoint files_under (R : fsrules) (path : pystr) (t : tree) : list pystr :=
  match t with
  | File _ => [path]
  | Dir _ es =>
      (fix all (es : list (pystr * tree)) : list pystr :=
         match es with
         | [] => []
         | (name, c) :: rest =>
             files_under R (path_join R path name) c ++ all rest
         end) es
  end.

Definition files_in (R : fsrules) (path : pystr) (es : list (pystr * tree))
    : list pystr :=
  flat_map (fun e => files_under R (path_join R path e.1) e.2) es.

(** An operation of the deletion: listing a directory, removing a file,
    removing a directory. *)
Inductive op := OpList | OpUnlink | OpRmdir.

Definition op_event (o : op) (path : pystr) (ok : bool) : event :=
  match o with
  | OpList => EvList path ok
  | OpUnlink => EvUnlink path ok
  | OpRmdir => EvRmdir path ok
  end.

(** The shape of a deletion under a handler that clears the read-only
    attribute and retries: a sequence of operations in which each failed
    one is followed by [os.chmod(path, S_IWRITE)] on the same path, and a
    [chmod] that succeeds by the same operation on the same path, once; a
    [chmod] or a retry that fails is the last thing done, as is the
    [chmod] after a failed [os.open], which the handler cannot call
    again.  The flag tells whether the sequence ends in such a failure. *)
Inductive retried_once : bool -> list event -> Prop :=
| ro_done : retried_once false []
| ro_ok o path tr b :
    retried_once b tr ->
    retried_once b (op_event o path true :: tr)
| ro_retry_ok o path tr b :
    retried_once b tr ->
    retried_once b
      (op_event o path false :: EvChmod path S_IWRITE true
         :: op_event o path true :: tr)
| ro_retry_fails o path :
    retried_once true
      [op_event o path false; EvChmod path S_IWRITE true;
       op_event o path false]
| ro_chmod_fails o path :
    retried_once true [op_event o path false; EvChmod path S_IWRITE false]
| ro_cannot_reopen path :
    retried_once true [EvList path false; EvChmod path S_IWRITE true].

(** The exceptions a deletion under [on_rm_error] ends with: the
    [PermissionError] of [os.chmod] or of the retry, the [OSError] of an
    [os.rmdir] of a directory that is not empty, or the [TypeError] of the
    call [os.open(path)]. *)
Definition deletion_error (x : exn) : bool :=
  match x with
  | PermissionError _ _ | DirectoryNotEmpty _ _ | TypeError _ => true
  | _ => false
  end.

(** What the result and the trace of a deletion under such a handler are
    like: the deletion starts no process and creates no directory; when
    it returns, no step of it ended in failure and every one of [files]
    was unlinked; when it raises, the exception is one of the above and
    the trace ends at the failure. *)
Definition deletion_trace (files : list pystr) (r : exn + unit)
    (tr : list event) : Prop :=
  spawned tr = [] /\ created tr = [] /\
  match r with
  | inr _ =>
      retried_once false tr
      /\ (forall q, q ∈ files -> EvUnlink q true ∈ tr)
  | inl x => deletion_error x = true /\ retried_once true tr
  end.

(** No entry of the tree is in use by another process. *)
Fixpoint no_busy (t : tree) : bool :=
  match t with
  | File m => negb (busy m)
  | Dir m es =>
      negb (busy m)
      && (fix all (es : list (pystr * tree)) : bool :=
            match es with
            | [] => true
            | (_, c) :: rest => no_busy c && all rest
            end) es
  end.

Definition no_busy_entries (es : list (pystr * tree)) : bool :=
  forallb (fun e => no_busy e.2) es.

(** A string of white space only. *)
Definition blank (s : list Z) : Prop := Forall (fun c => isspace c = true) s.

(** The UTF-8 encoding of a code point and of a string. *)
Definition utf8_encode_cp (c : Z) : list Z :=
  if c <? 128 then [c]
  else if c <? 2048 then [192 + c / 64; 128 + c mod 64]
  else if c <? 65536 then
    [224 + c / 4096; 128 + (c / 64) mod 64; 128 + c mod 64]
  else
    [240 + c / 262144; 128 + (c / 4096) mod 64; 128 + (c / 64) mod 64;
     128 + c mod 64].

Definition utf8_encode (s : list Z) : list Z := flat_map utf8_encode_cp s.

(** A Unicode scalar value: a code point that is not a surrogate. *)
Definition scalar (c : Z) : Prop :=
  0 <= c < 1114112 /\ ~ (55296 <= c < 57344).

(** The request with another [diff] field. *)
Definition with_diff (req : ReviewRequest) (x : option (list Z))
    : ReviewRequest :=
  {| diff := x; repo_url := repo_url req; pr_number := pr_number req;
     base := base req |}.

(** The number of entries of a tree, itself included. *)
Fixpoint nodes (t : tree) : nat :=
  match t with
  | File _ => 1%nat
  | Dir _ es =>
      S ((fix sum (es : list (list Z * tree)) : nat :=
            match es with
            | [] => 0%nat
            | (_, c) :: rest => (nodes c + sum rest)%nat
            end) es)
  end.

Definition nodes_entries (es : list (list Z * tree)) : nat :=
  list_sum (List.map (fun e => nodes e.2) es).

(** The paths [tempfile] tries for a workspace, in order. *)
Definition candidates (E : env) : list (list Z) :=
  List.map (temp_path E (U "ai-review-")) (seq 0 (tmp_max E)).

(** ** Sample platforms and worlds *)

(** Windows, for a user with full control: an entry is removed unless it
    is in use or read-only, the attributes of the directory play no part;
    [os.chmod] sets or clears the read-only attribute; the walk is by
    paths. *)
Definition windows_rules : fsrules :=
  {| can_list := fun _ _ => true;
     can_remove := fun _ m => Z.testbit (mode m) 7 && negb (busy m);
     can_chmod := fun _ _ => true;
     chmod_result := fun md m =>
       Meta (if Z.testbit md 7 then Z.lor (mode m) 146
             else Z.land (mode m) 365) (busy m);
     denial := fun m =>
       if busy m
       then U "[WinError 32] The process cannot access the file because it is being used by another process"
       else U "[WinError 5] Access is denied";
     strerror := fun k =>
       match k with
       | ENOENT => U "[WinError 2] The system cannot find the file specified"
       | ENOTDIR => U "[WinError 267] The directory name is invalid"
       | EISDIR => U "[WinError 5] Access is denied"
       | ENOTEMPTY => U "[WinError 145] The directory is not empty"
       end;
     sep := [92];
     fd_based := false |}.

(** POSIX, for the owner of the entries: a directory is listed with read
    permission on it and search permission on the directory it is in, an
    entry is removed with write and search permission on its directory,
    [os.chmod] takes search permission on the directory and sets the
    mode; the walk is descriptor-based. *)
Definition posix_rules : fsrules :=
  {| can_list := fun pm m =>
       Z.testbit (mode pm) 6 && Z.testbit (mode m) 8;
     can_remove := fun pm _ => Z.testbit (mode pm) 7 && Z.testbit (mode pm) 6;
     can_chmod := fun pm _ => Z.testbit (mode pm) 6;
     chmod_result := fun md m => Meta (Z.land md 4095) (busy m);
     denial := fun _ => U "[Errno 13] Permission denied";
     strerror := fun k =>
       match k with
       | ENOENT => U "[Errno 2] No such file or directory"
       | ENOTDIR => U "[Errno 20] Not a directory"
       | EISDIR => U "[Errno 21] Is a directory"
       | ENOTEMPTY => U "[Errno 39] Directory not empty"
       end;
     sep := U "/";
     fd_based := true |}.

(** [os.TMP_MAX] on Linux; the sample worlds try that many names on
    every platform. *)
Definition LINUX_TMP_MAX : nat := Z.to_nat 238328.

(** A world on the given platform, with the temporary-storage root
    [tmp], whose git commands exit with [status argv], print [out] and
    leave [left] in the workspace; the backends report [rules] and
    nothing else, and the chat endpoint answers [answer]. *)
Definition sample_env_on (R : fsrules) (tmp : pystr) (n : nat)
    (status : list pystr -> Z) (left : list (pystr * tree))
    (out : pybytes) (rules : gmap pystr (list pystr))
    (answer : exn + chat_completion) : env :=
  {| fs := R;
     tempdir := tmp;
     tempdir_meta := Meta 511 false;
     tmp_max := n;
     random_name := fun i => str_int (Z.of_nat i);
     spawn := fun argv _ _ =>
       inr {| returncode := status argv; stdout := out; written := left |};
     run_rule_checks := fun _ _ _ _ _ => inr rules;
     run_ai_review := fun txt _ => inr ([txt], 0.5%Q);
     openai := inr (fun _ _ _ _ => answer) |}.

(** The same on Linux, and with the rules of Windows. *)
Definition sample_env := sample_env_on posix_rules (U "/tmp") LINUX_TMP_MAX.
Definition windows_env :=
  sample_env_on windows_rules (U "C:\Temp") LINUX_TMP_MAX.

(** Exit status 128 for the git subcommand [cmd], 0 for the others. *)
Definition fails_at (cmd : string) (argv : list pystr) : Z :=
  if decide (argv !! 1%nat = Some (U cmd)) then 128 else 0.

Definition all_succeed (argv : list pystr) : Z := 0.

(** A checkout with a read-only pack file, as git makes them. *)
Definition sample_checkout : list (pystr * tree) :=
  [ (U "README.md", File (Meta 420 false));
    (U ".git", Dir (Meta 493 false)
                 [ (U "pack-1.idx", File (Meta 292 false)) ]) ].

(** The same with the pack file held open by another process. *)
Definition held_checkout : list (pystr * tree) :=
  [ (U "README.md", File (Meta 420 false));
    (U ".git", Dir (Meta 493 false)
                 [ (U "pack-1.idx", File (Meta 292 true)) ]) ].

(** A checkout with a directory that gives no write permission. *)
Definition locked_checkout : list (pystr * tree) :=
  [ (U "README.md", File (Meta 420 false));
    (U "vendor", Dir (Meta 365 false)
                   [ (U "lib.py", File (Meta 420 false)) ]) ].


Definition sample_cfg : yaml :=
  YMap (<[U "rules" := YMap ∅]> (<[U "ai_review" := YMap ∅]> ∅)).

Definition sample_remote : ReviewRequest :=
  {| diff := None; repo_url := Some (U "https://example.org/r.git");
     pr_number := Some 7; base := U "main" |}.

Definition sample_local : ReviewRequest :=
  {| diff := Some (U "+ x = 1"); repo_url := None; pr_number := None;
     base := U "main" |}.

Definition sample_answer (text : option pystr) : exn + chat_completion :=
  inr {| choices := [ {| message := Some {| content := text |} |} ] |}.

Definition sample_line : InlineSuggestionRequest :=
  {| fileName := U "a.py"; line := U "x=1"; lineNumber := 1;
     fullFile := [U "x=1"] |}.

(** A world in which [tempfile] draws the same name again and again. *)
Definition stale_env (name : list Z) : env :=
  {| fs := posix_rules;
     tempdir := U "/tmp";
     tempdir_meta := Meta 511 false;
     tmp_max := LINUX_TMP_MAX;
     random_name := fun _ => name;
     spawn := fun argv _ _ =>
       inr {| returncode := 0; stdout := []; written := [] |};
     run_rule_checks := fun _ _ _ _ _ => inr ∅;
     run_ai_review := fun txt _ => inr ([txt], 0.5%Q);
     openai := inr (fun _ _ _ _ => inl (OtherError (U "offline"))) |}.

(** A world whose backends raise [rule_error] and [ai_error]. *)
Definition failing_env (rule_error ai_error : option exn) : env :=
  {| fs := posix_rules;
     tempdir := U "/tmp";
     tempdir_meta := Meta 511 false;
     tmp_max := LINUX_TMP_MAX;
     random_name := fun i => str_int (Z.of_nat i);
     spawn := fun argv _ _ =>
       inr {| returncode := 0; stdout := []; written := [] |};
     run_rule_checks := fun _ _ _ _ _ =>
       match rule_error with Some e => inl e | None => inr ∅ end;
     run_ai_review := fun txt _ =>
       match ai_error with Some e => inl e | None => inr ([txt], 0.5%Q) end;
     openai := inr (fun _ _ _ _ => inl (OtherError (U "offline"))) |}.

(** A world without a git client: every command raises before a child
    exists. *)
Definition no_git_env : env :=
  {| fs := posix_rules;
     tempdir := U "/tmp";
     tempdir_meta := Meta 511 false;
     tmp_max := LINUX_TMP_MAX;
     random_name := fun i => str_int (Z.of_nat i);
     spawn := fun argv _ _ =>
       inl (FileNotFoundError (U "[Errno 2] No such file or directory")
              (U "git"));
     run_rule_checks := fun _ _ _ _ _ => inr ∅;
     run_ai_review := fun txt _ => inr ([txt], 0.5%Q);
     openai := inr (fun _ _ _ _ => inl (OtherError (U "offline"))) |}.

(** * Properties *)

(** ** The monad *)

Ltac se_unfold :=
  unfold mbind, mret, SE_bind, SE_ret, bind, ret, raise, emit, get, put,
    try_except, try_finally, lift in *.

Ltac se_simpl := se_unfold; simpl in *.

(** ** Removing a tree *)

Lemma tree_ind' (P : tree -> Prop) :
  (forall m, P (File m)) ->
  (forall m es, Forall (fun e => P e.2) es -> P (Dir m es)) ->
  forall t, P t.
Proof.
  intros HF HD. fix IH 1. intros [m | m es].
  - apply HF.
  - apply HD. induction es as [| [n c] es IHes]; constructor.
    + apply IH.
    + apply IHes.
Qed.

Ltac fs_unfold :=
  unfold attempt, on_rm_error, list_func, os_unlink, os_rmdir, os_list,
    os_chmod, os_open_bare, put_entry; se_unfold; cbn.

(** One removal under [on_rm_error]: a first try; when it fails a [chmod];
    when that succeeds exactly one more try. *)
Lemma attempt_unlink (R : fsrules) (pm : meta) (path : list Z) (m : meta) :
  attempt on_rm_error os_unlink path (View R pm (Some (File m))) =
  if can_remove R pm m
  then (inr tt, View R pm None, [EvUnlink path true])
  else if can_chmod R pm m then
    if can_remove R pm (chmod_result R S_IWRITE m)
    then (inr tt, View R pm None,
          [EvUnlink path false; EvChmod path S_IWRITE true;
           EvUnlink path true])
    else (inl (refused R (chmod_result R S_IWRITE m) path),
          View R pm (Some (File (chmod_result R S_IWRITE m))),
          [EvUnlink path false; EvChmod path S_IWRITE true;
           EvUnlink path false])
  else (inl (refused R m path), View R pm (Some (File m)),
        [EvUnlink path false; EvChmod path S_IWRITE false]).
Proof.
  fs_unfold. destruct (can_remove R pm m) eqn:H1; cbn; [reflexivity |].
  destruct (can_chmod R pm m) eqn:H2; cbn; [| reflexivity].
  destruct (can_remove R pm (chmod_result R S_IWRITE m)); reflexivity.
Qed.

Lemma attempt_rmdir_empty (R : fsrules) (pm : meta) (path : list Z)
    (m : meta) :
  attempt on_rm_error os_rmdir path (View R pm (Some (Dir m []))) =
  if can_remove R pm m
  then (inr tt, View R pm None, [EvRmdir path true])
  else if can_chmod R pm m then
    if can_remove R pm (chmod_result R S_IWRITE m)
    then (inr tt, View R pm None,
          [EvRmdir path false; EvChmod path S_IWRITE true;
           EvRmdir path true])
    else (inl (refused R (chmod_result R S_IWRITE m) path),
          View R pm (Some (Dir (chmod_result R S_IWRITE m) [])),
          [EvRmdir path false; EvChmod path S_IWRITE true;
           EvRmdir path false])
  else (inl (refused R m path), View R pm (Some (Dir m [])),
        [EvRmdir path false; EvChmod path S_IWRITE false]).
Proof.
  fs_unfold. destruct (can_remove R pm m) eqn:H1; cbn; [reflexivity |].
  destruct (can_chmod R pm m) eqn:H2; cbn; [| reflexivity].
  destruct (can_remove R pm (chmod_result R S_IWRITE m)); reflexivity.
Qed.

Lemma attempt_rmdir_nonempty (R : fsrules) (pm : meta) (path : list Z)
    (m : meta) (e : list Z * tree) (es : list (list Z * tree)) :
  attempt on_rm_error os_rmdir path (View R pm (Some (Dir m (e :: es)))) =
  if can_chmod R pm m
  then (inl (os_error R ENOTEMPTY path),
        View R pm (Some (Dir (chmod_result R S_IWRITE m) (e :: es))),
        [EvRmdir path false; EvChmod path S_IWRITE true;
         EvRmdir path false])
  else (inl (refused R m path), View R pm (Some (Dir m (e :: es))),
        [EvRmdir path false; EvChmod path S_IWRITE false]).
Proof.
  fs_unfold. destruct (can_chmod R pm m); reflexivity.
Qed.

Lemma os_list_dir (R : fsrules) (pm : meta) (path : list Z) (m : meta)
    (es : list (list Z * tree)) :
  os_list path (View R pm (Some (Dir m es))) =
  if can_list R pm m
  then (inr tt, View R pm (Some (Dir m es)), [EvList path true])
  else (inl (refused R m path), View R pm (Some (Dir m es)),
        [EvList path false]).
Proof. fs_unfold. destruct (can_list R pm m); reflexivity. Qed.

(** What [on_rm_error] does about a directory that could not be listed. *)
Lemma relist_dir (R : fsrules) (pm : meta) (path : list Z) (m : meta)
    (es : list (list Z * tree)) (e : exn) :
  on_rm_error list_func path e (View R pm (Some (Dir m es))) =
  if can_chmod R pm m then
    let m' := chmod_result R S_IWRITE m in
    if fd_based R
    then (inl (TypeError
                 (U "open() missing required argument 'flags' (pos 2)")),
          View R pm (Some (Dir m' es)), [EvChmod path S_IWRITE true])
    else if can_list R pm m'
    then (inr tt, View R pm (Some (Dir m' es)),
          [EvChmod path S_IWRITE true; EvList path true])
    else (inl (refused R m' path), View R pm (Some (Dir m' es)),
          [EvChmod path S_IWRITE true; EvList path false])
  else (inl (refused R m path), View R pm (Some (Dir m es)),
        [EvChmod path S_IWRITE false]).
Proof.
  fs_unfold. destruct (can_chmod R pm m); cbn; [| reflexivity].
  destruct (fd_based R); cbn; [reflexivity |].
  destruct (can_list R pm (chmod_result R S_IWRITE m)); reflexivity.
Qed.

Lemma rmtree_entries_cons R rmtree onerror dm path name child rest :
  rmtree_entries R rmtree onerror dm path ((name, child) :: rest) =
  let '(r1, child', t1) :=
    rmtree_entry R rmtree onerror dm (path_join R path name) child in
  match r1 with
  | inl e => (inl e, relist name child' ++ rest, t1)
  | inr _ =>
      let '(r2, rest', t2) := rmtree_entries R rmtree onerror dm path rest in
      (r2, relist name child' ++ rest', t1 ++ t2)
  end.
Proof. reflexivity. Qed.

Lemma rmtree_walk_Dir R onerror pm path m entries :
  rmtree_walk R onerror pm path (Dir m entries) =
  let '(r0, v0, t0) := os_list path (View R pm (Some (Dir m entries))) in
  match r0 with
  | inr _ =>
      let '(r, entries', tr) :=
        rmtree_entries R (rmtree_walk R onerror) onerror m path entries in
      match r with
      | inl e => (inl e, Some (Dir m entries'), t0 ++ tr)
      | inr _ =>
          let '(r3, v3, t3) :=
            attempt onerror os_rmdir path
              (View R pm (Some (Dir m entries'))) in
          (r3, v_entry v3, t0 ++ tr ++ t3)
      end
  | inl e =>
      let '(r1, v1, t1) := onerror list_func path e v0 in
      match r1 with
      | inl e' => (inl e', v_entry v1, t0 ++ t1)
      | inr _ =>
          if fd_based R then (inr tt, v_entry v1, t0 ++ t1)
          else
            let '(r3, v3, t3) := attempt onerror os_rmdir path v1 in
            (r3, v_entry v3, t0 ++ t1 ++ t3)
      end
  end.
Proof. reflexivity. Qed.

Lemma attempt_unlink_outcome (R : fsrules) (pm : meta) (path : list Z)
    (m : meta) :
  let o := attempt on_rm_error os_unlink path (View R pm (Some (File m))) in
  (o.1.1 = inr tt /\ v_entry o.1.2 = None)
  \/ (exists x t', o.1.1 = inl x /\ v_entry o.1.2 = Some t').
Proof.
  cbv zeta. rewrite attempt_unlink.
  destruct (can_remove R pm m); [cbn; eauto |].
  destruct (can_chmod R pm m); [| cbn; eauto].
  destruct (can_remove R pm (chmod_result R S_IWRITE m)); cbn; eauto.
Qed.

Lemma attempt_rmdir_outcome (R : fsrules) (pm : meta) (path : list Z)
    (m : meta) (es : list (list Z * tree)) :
  let o := attempt on_rm_error os_rmdir path (View R pm (Some (Dir m es))) in
  (o.1.1 = inr tt /\ v_entry o.1.2 = None)
  \/ (exists x t', o.1.1 = inl x /\ v_entry o.1.2 = Some t').
Proof.
  cbv zeta. destruct es as [| e es].
  - rewrite attempt_rmdir_empty.
    destruct (can_remove R pm m); [cbn; eauto |].
    destruct (can_chmod R pm m); [| cbn; eauto].
    destruct (can_remove R pm (chmod_result R S_IWRITE m)); cbn; eauto.
  - rewrite attempt_rmdir_nonempty.
    destruct (can_chmod R pm m); cbn; eauto.
Qed.

(** The walk over the entries of a directory under [on_rm_error] either
    removes them all, or fails at one entry: the entries before it are
    gone, that entry is still there, and the entries after it have not
    been looked at. *)
Lemma rmtree_entries_outcome (R : fsrules) (dm : meta) (path : list Z)
    (es : list (list Z * tree)) :
  Forall
    (fun e => forall pm p m' es', e.2 = Dir m' es' ->
       ((rmtree_walk R on_rm_error pm p e.2).1.1 = inr tt
        /\ (rmtree_walk R on_rm_error pm p e.2).1.2 = None)
       \/ (exists x t', (rmtree_walk R on_rm_error pm p e.2).1.1 = inl x
                        /\ (rmtree_walk R on_rm_error pm p e.2).1.2 = Some t'))
    es ->
  let out :=
    rmtree_entries R (rmtree_walk R on_rm_error) on_rm_error dm path es in
  (out.1.1 = inr tt /\ out.1.2 = [])
  \/ (exists x pre name child child' rest,
        out.1.1 = inl x
        /\ es = pre ++ (name, child) :: rest
        /\ out.1.2 = (name, child') :: rest).
Proof.
  intros Hall. induction Hall as [| [n c] es Hc _ IH]; cbv zeta.
  - left. split; reflexivity.
  - rewrite rmtree_entries_cons.
    assert (Hchild :
      let o := rmtree_entry R (rmtree_walk R on_rm_error) on_rm_error dm
                 (path_join R path n) c in
      (o.1.1 = inr tt /\ o.1.2 = None)
      \/ (exists x t', o.1.1 = inl x /\ o.1.2 = Some t')).
    { destruct c as [mc | mc esc]; cbv zeta.
      - pose proof (attempt_unlink_outcome R dm (path_join R path n) mc) as H.
        cbv zeta in H. unfold rmtree_entry.
        destruct (attempt on_rm_error os_unlink (path_join R path n)
                    (View R dm (Some (File mc)))) as [[r v] t].
        exact H.
      - apply (Hc dm (path_join R path n) mc esc eq_refl). }
    cbv zeta in Hchild.
    destruct (rmtree_entry R (rmtree_walk R on_rm_error) on_rm_error dm
                (path_join R path n) c) as [[r1 child'] t1].
    cbn [fst snd] in Hchild.
    destruct Hchild as [[-> ->] | (x & t' & -> & ->)].
    + cbv zeta in IH.
      destruct (rmtree_entries R (rmtree_walk R on_rm_error) on_rm_error
                  dm path es) as [[r2 rest'] t2].
      cbn [fst snd relist app] in *.
      destruct IH as [[-> ->] | (x & pre & name & child & ch' & rest
                                 & -> & -> & ->)].
      * left. split; reflexivity.
      * right. exists x, ((n, c) :: pre), name, child, ch', rest.
        repeat split.
    + right. exists x, [], n, c, t', es. repeat split.
Qed.

(** A directory is removed whole, or the removal raises and the directory
    is still there. *)
Lemma rmtree_walk_outcome (R : fsrules) (t : tree) :
  forall (pm : meta) (path : list Z) m es, t = Dir m es ->
    ((rmtree_walk R on_rm_error pm path t).1.1 = inr tt
     /\ (rmtree_walk R on_rm_error pm path t).1.2 = None)
    \/ (exists x t', (rmtree_walk R on_rm_error pm path t).1.1 = inl x
                     /\ (rmtree_walk R on_rm_error pm path t).1.2 = Some t').
Proof.
  induction t as [m | m es IH] using tree_ind'; intros pm path m' es' Heq;
    [discriminate |]. clear m' es' Heq.
  rewrite rmtree_walk_Dir, os_list_dir.
  destruct (can_list R pm m).
  - pose proof (rmtree_entries_outcome R m path es) as Hloop.
    cbv zeta in Hloop.
    destruct (rmtree_entries R (rmtree_walk R on_rm_error) on_rm_error m
                path es) as [[r entries'] tr].
    cbn [fst snd] in Hloop.
    destruct Hloop as [[-> ->] | (x & pre & name & child & ch' & rest
                                & -> & _ & ->)].
    + eapply Forall_impl; [exact IH |]. intros e He pm' p m' es' Hd.
      exact (He pm' p m' es' Hd).
    + pose proof (attempt_rmdir_outcome R pm path m []) as H.
      cbv zeta in H.
      destruct (attempt on_rm_error os_rmdir path
                  (View R pm (Some (Dir m [])))) as [[r3 v3] t3].
      exact H.
    + right. cbn. eauto.
  - rewrite relist_dir.
    destruct (can_chmod R pm m); [| right; cbn; eauto].
    cbv zeta. destruct (fd_based R); [right; cbn; eauto |].
    destruct (can_list R pm (chmod_result R S_IWRITE m));
      [| right; cbn; eauto].
    pose proof (attempt_rmdir_outcome R pm path
                  (chmod_result R S_IWRITE m) es) as H.
    cbv zeta in H.
    destruct (attempt on_rm_error os_rmdir path
                (View R pm (Some (Dir (chmod_result R S_IWRITE m) es))))
      as [[r3 v3] t3].
    exact H.
Qed.

Lemma rmtree_stops_or_empties (R : fsrules) (dm : meta) (path : list Z)
    (es : list (list Z * tree)) :
  let out :=
    rmtree_entries R (rmtree_walk R on_rm_error) on_rm_error dm path es in
  (out.1.1 = inr tt /\ out.1.2 = [])
  \/ (exists x pre name child child' rest,
        out.1.1 = inl x
        /\ es = pre ++ (name, child) :: rest
        /\ out.1.2 = (name, child') :: rest).
Proof.
  apply rmtree_entries_outcome. apply Forall_forall.
  intros e _ pm p m' es' He.
  exact (rmtree_walk_outcome R e.2 pm p m' es' He).
Qed.

(** [shutil.rmtree] on a directory of the disk: it returns and the
    directory is gone, or it raises and the directory is still there. *)
Lemma shutil_rmtree_outcome (R : fsrules) (pm : meta) (p : list Z)
    (d : gmap (list Z) tree) (m : meta) (es : list (list Z * tree)) :
  d !! p = Some (Dir m es) ->
  let out := shutil_rmtree R pm p on_rm_error d in
  (out.1.1 = inr tt /\ out.1.2 = delete p d)
  \/ (exists x t', out.1.1 = inl x /\ out.1.2 = <[p := t']> d).
Proof.
  intros Hd. cbv zeta. unfold shutil_rmtree. rewrite Hd.
  destruct (rmtree_walk_outcome R (Dir m es) pm p m es eq_refl)
    as [[H1 H2] | (x & t' & H1 & H2)];
    destruct (rmtree_walk R on_rm_error pm p (Dir m es)) as [[r o] tr];
    cbn [fst snd] in *; subst r o; cbn [set_entry]; eauto.
Qed.

Lemma spawned_app (t1 t2 : list event) :
  spawned (t1 ++ t2) = spawned t1 ++ spawned t2.
Proof. unfold spawned. apply omap_app. Qed.

Lemma created_app (t1 t2 : list event) :
  created (t1 ++ t2) = created t1 ++ created t2.
Proof. unfold created. apply omap_app. Qed.

Lemma retried_once_app (t1 t2 : list event) (b : bool) :
  retried_once false t1 -> retried_once b t2 -> retried_once b (t1 ++ t2).
Proof.
  intros H1 H2. remember false as b0 eqn:Hb.
  induction H1; try discriminate; cbn [app].
  - exact H2.
  - apply ro_ok. auto.
  - apply ro_retry_ok. auto.
Qed.

Lemma deletion_error_not_git (x : exn) :
  deletion_error x = true -> is_CalledProcessError x = false.
Proof. destruct x; (discriminate || reflexivity). Qed.

Lemma deletion_trace_seq (f1 f2 : list (list Z)) (r : exn + unit)
    (t1 t2 : list event) :
  deletion_trace f1 (inr tt) t1 -> deletion_trace f2 r t2 ->
  deletion_trace (f1 ++ f2) r (t1 ++ t2).
Proof.
  intros (S1 & C1 & R1 & F1) (S2 & C2 & H2).
  split; [by rewrite spawned_app, S1, S2 |].
  split; [by rewrite created_app, C1, C2 |].
  destruct r as [x | u].
  - destruct H2 as [Hx R2]. split; [exact Hx |].
    by apply retried_once_app.
  - destruct H2 as [R2 F2]. split; [by apply retried_once_app |].
    intros q Hq. apply elem_of_app. apply elem_of_app in Hq as [Hq | Hq].
    + left. by apply F1.
    + right. by apply F2.
Qed.

Lemma deletion_trace_fail (f f' : list (list Z)) (x : exn)
    (t : list event) :
  deletion_trace f (inl x) t -> deletion_trace f' (inl x) t.
Proof. intros H. exact H. Qed.

Lemma deletion_trace_fail_after (f1 f2 f : list (list Z)) (x : exn)
    (t1 t2 : list event) :
  deletion_trace f1 (inr tt) t1 -> deletion_trace f2 (inl x) t2 ->
  deletion_trace f (inl x) (t1 ++ t2).
Proof.
  intros H1 H2.
  exact (deletion_trace_fail _ f _ _ (deletion_trace_seq _ _ _ _ _ H1 H2)).
Qed.

Lemma deletion_trace_listed (path : list Z) :
  deletion_trace [] (inr tt) [EvList path true].
Proof.
  repeat split.
  - exact (ro_ok OpList path [] false ro_done).
  - intros q Hq. by apply elem_of_nil in Hq.
Qed.

Lemma attempt_unlink_trace (R : fsrules) (pm : meta) (path : list Z)
    (m : meta) :
  let o := attempt on_rm_error os_unlink path (View R pm (Some (File m))) in
  deletion_trace [path] o.1.1 o.2.
Proof.
  cbv zeta. rewrite attempt_unlink.
  destruct (can_remove R pm m).
  { repeat split.
    - exact (ro_ok OpUnlink path [] false ro_done).
    - intros q Hq. apply list_elem_of_singleton in Hq as ->. by left. }
  destruct (can_chmod R pm m).
  2:{ repeat split. exact (ro_chmod_fails OpUnlink path). }
  destruct (can_remove R pm (chmod_result R S_IWRITE m)).
  - repeat split.
    + exact (ro_retry_ok OpUnlink path [] false ro_done).
    + intros q Hq. apply list_elem_of_singleton in Hq as ->.
      do 2 right. by left.
  - repeat split. exact (ro_retry_fails OpUnlink path).
Qed.

Lemma attempt_rmdir_trace (R : fsrules) (pm : meta) (path : list Z)
    (m : meta) (es : list (list Z * tree)) :
  let o := attempt on_rm_error os_rmdir path (View R pm (Some (Dir m es))) in
  deletion_trace [] o.1.1 o.2.
Proof.
  cbv zeta. destruct es as [| e es].
  - rewrite attempt_rmdir_empty.
    destruct (can_remove R pm m).
    { repeat split.
      - exact (ro_ok OpRmdir path [] false ro_done).
      - intros q Hq. by apply elem_of_nil in Hq. }
    destruct (can_chmod R pm m).
    2:{ repeat split. exact (ro_chmod_fails OpRmdir path). }
    destruct (can_remove R pm (chmod_result R S_IWRITE m)).
    + repeat split.
      * exact (ro_retry_ok OpRmdir path [] false ro_done).
      * intros q Hq. by apply elem_of_nil in Hq.
    + repeat split. exact (ro_retry_fails OpRmdir path).
  - rewrite attempt_rmdir_nonempty.
    destruct (can_chmod R pm m).
    + repeat split. exact (ro_retry_fails OpRmdir path).
    + repeat split. exact (ro_chmod_fails OpRmdir path).
Qed.

Lemma files_under_Dir (R : fsrules) (path : list Z) (m : meta)
    (es : list (list Z * tree)) :
  files_under R path (Dir m es) = files_in R path es.
Proof.
  unfold files_in. simpl.
  induction es as [| [n c] es IH]; simpl; [reflexivity |]. by rewrite IH.
Qed.

Lemma rmtree_entries_trace (R : fsrules) (dm : meta) (path : list Z)
    (es : list (list Z * tree)) :
  Forall
    (fun e => forall pm p m' es', e.2 = Dir m' es' ->
       deletion_trace (files_under R p e.2)
         (rmtree_walk R on_rm_error pm p e.2).1.1
         (rmtree_walk R on_rm_error pm p e.2).2)
    es ->
  let out :=
    rmtree_entries R (rmtree_walk R on_rm_error) on_rm_error dm path es in
  deletion_trace (files_in R path es) out.1.1 out.2.
Proof.
  intros Hall. induction Hall as [| [n c] es Hc _ IH]; cbv zeta.
  - repeat split; [exact ro_done |].
    intros q Hq. by apply elem_of_nil in Hq.
  - rewrite rmtree_entries_cons.
    assert (Hchild :
      let o := rmtree_entry R (rmtree_walk R on_rm_error) on_rm_error dm
                 (path_join R path n) c in
      deletion_trace (files_under R (path_join R path n) c) o.1.1 o.2).
    { destruct c as [mc | mc esc]; cbv zeta.
      - pose proof (attempt_unlink_trace R dm (path_join R path n) mc) as H.
        cbv zeta in H. unfold rmtree_entry.
        destruct (attempt on_rm_error os_unlink (path_join R path n)
                    (View R dm (Some (File mc)))) as [[r v] t].
        exact H.
      - apply (Hc dm (path_join R path n) mc esc eq_refl). }
    cbv zeta in Hchild, IH.
    destruct (rmtree_entry R (rmtree_walk R on_rm_error) on_rm_error dm
                (path_join R path n) c) as [[r1 child'] t1].
    destruct (rmtree_entries R (rmtree_walk R on_rm_error) on_rm_error
                dm path es) as [[r2 rest'] t2].
    cbn [fst snd] in *.
    change (files_in R path ((n, c) :: es))
      with (files_under R (path_join R path n) c ++ files_in R path es).
    destruct r1 as [x | []]; cbn [fst snd].
    + exact (deletion_trace_fail _ _ _ _ Hchild).
    + by apply deletion_trace_seq.
Qed.

(** The deletion of a directory under [on_rm_error], as a trace. *)
Lemma rmtree_walk_trace (R : fsrules) (t : tree) :
  forall (pm : meta) (path : list Z) m es, t = Dir m es ->
    deletion_trace (files_under R path t)
      (rmtree_walk R on_rm_error pm path t).1.1
      (rmtree_walk R on_rm_error pm path t).2.
Proof.
  induction t as [m | m es IH] using tree_ind'; intros pm path m' es' Heq;
    [discriminate |]. clear m' es' Heq.
  rewrite files_under_Dir, rmtree_walk_Dir, os_list_dir.
  destruct (can_list R pm m).
  - pose proof (rmtree_entries_trace R m path es IH) as Hloop.
    pose proof (rmtree_stops_or_empties R m path es) as Hout.
    cbv zeta in Hloop, Hout.
    destruct (rmtree_entries R (rmtree_walk R on_rm_error) on_rm_error m
                path es) as [[r entries'] tr].
    cbn [fst snd] in Hloop, Hout.
    destruct r as [x | []].
    + cbn [fst snd].
      exact (deletion_trace_fail_after _ _ _ _ _ _
               (deletion_trace_listed path) Hloop).
    + pose proof (attempt_rmdir_trace R pm path m entries') as Hlast.
      cbv zeta in Hlast.
      destruct (attempt on_rm_error os_rmdir path
                  (View R pm (Some (Dir m entries')))) as [[r3 v3] t3].
      cbn [fst snd] in *.
      pose proof (deletion_trace_seq _ _ _ _ _
                    (deletion_trace_listed path)
                    (deletion_trace_seq _ _ _ _ _ Hloop Hlast)) as H.
      cbn [app] in H. rewrite app_nil_r in H. exact H.
  - rewrite relist_dir.
    destruct (can_chmod R pm m).
    2:{ cbn. repeat split. exact (ro_chmod_fails OpList path). }
    cbv zeta. destruct (fd_based R).
    { cbn. repeat split. exact (ro_cannot_reopen path). }
    destruct (can_list R pm (chmod_result R S_IWRITE m)).
    2:{ cbn. repeat split. exact (ro_retry_fails OpList path). }
    assert (Hre : deletion_trace [] (inr tt)
              [EvList path false; EvChmod path S_IWRITE true;
               EvList path true]).
    { repeat split.
      - exact (ro_retry_ok OpList path [] false ro_done).
      - intros q Hq. by apply elem_of_nil in Hq. }
    destruct es as [| e es].
    + rewrite attempt_rmdir_empty.
      pose proof (attempt_rmdir_trace R pm path
                    (chmod_result R S_IWRITE m) []) as Hlast.
      cbv zeta in Hlast. rewrite attempt_rmdir_empty in Hlast.
      destruct (can_remove R pm (chmod_result R S_IWRITE m));
        [| destruct (can_chmod R pm (chmod_result R S_IWRITE m));
           [destruct (can_remove R pm
                        (chmod_result R S_IWRITE
                           (chmod_result R S_IWRITE m))) |]];
        cbn [fst snd] in *;
        exact (deletion_trace_seq _ _ _ _ _ Hre Hlast).
    + rewrite attempt_rmdir_nonempty.
      pose proof (attempt_rmdir_trace R pm path
                    (chmod_result R S_IWRITE m) (e :: es)) as Hlast.
      cbv zeta in Hlast. rewrite attempt_rmdir_nonempty in Hlast.
      destruct (can_chmod R pm (chmod_result R S_IWRITE m));
        cbn [fst snd] in *;
        exact (deletion_trace_fail_after _ _ _ _ _ _ Hre Hlast).
Qed.

Lemma clearable_Dir (R : fsrules) (pm m : meta)
    (es : list (list Z * tree)) :
  clearable R pm (Dir m es) =
  can_list R pm m && clearable_entries R m es && removable_entry R pm m.
Proof.
  simpl. do 2 f_equal. unfold clearable_entries.
  induction es as [| [n c] es IH]; simpl; [reflexivity |]. by rewrite IH.
Qed.

Lemma attempt_unlink_removable (R : fsrules) (pm : meta) (path : list Z)
    (m : meta) :
  removable_entry R pm m = true ->
  (attempt on_rm_error os_unlink path (View R pm (Some (File m)))).1.1
  = inr tt.
Proof.
  unfold removable_entry. intros H. rewrite attempt_unlink.
  destruct (can_remove R pm m); [reflexivity |].
  destruct (can_chmod R pm m); [| discriminate].
  destruct (can_remove R pm (chmod_result R S_IWRITE m));
    [reflexivity | discriminate].
Qed.

Lemma attempt_rmdir_removable (R : fsrules) (pm : meta) (path : list Z)
    (m : meta) :
  removable_entry R pm m = true ->
  (attempt on_rm_error os_rmdir path (View R pm (Some (Dir m [])))).1.1
  = inr tt.
Proof.
  unfold removable_entry. intros H. rewrite attempt_rmdir_empty.
  destruct (can_remove R pm m); [reflexivity |].
  destruct (can_chmod R pm m); [| discriminate].
  destruct (can_remove R pm (chmod_result R S_IWRITE m));
    [reflexivity | discriminate].
Qed.

(** A directory in which everything can be listed and removed, at once or
    after the [chmod] of the handler, is deleted without an exception. *)
Lemma rmtree_walk_clearable (R : fsrules) (t : tree) :
  forall (pm : meta) (path : list Z) m es, t = Dir m es ->
    clearable R pm t = true ->
    (rmtree_walk R on_rm_error pm path t).1.1 = inr tt.
Proof.
  induction t as [m | m es IH] using tree_ind';
    intros pm path m' es' Heq Hc; [discriminate |]. clear m' es' Heq.
  rewrite clearable_Dir in Hc.
  apply andb_prop in Hc as [Hc Hm]. apply andb_prop in Hc as [Hl Hes].
  rewrite rmtree_walk_Dir, os_list_dir, Hl.
  assert (Hloop :
    (rmtree_entries R (rmtree_walk R on_rm_error) on_rm_error m path
       es).1.1 = inr tt).
  { clear Hm Hl. induction IH as [| [n c] es Hc _ IHes]; [reflexivity |].
    unfold clearable_entries in Hes. cbn [forallb snd] in Hes.
    apply andb_prop in Hes as [Hc' Hes].
    rewrite rmtree_entries_cons.
    assert (Hchild :
      (rmtree_entry R (rmtree_walk R on_rm_error) on_rm_error m
         (path_join R path n) c).1.1 = inr tt).
    { destruct c as [mc | mc esc].
      - pose proof (attempt_unlink_removable R m (path_join R path n) mc Hc')
          as H.
        unfold rmtree_entry.
        destruct (attempt on_rm_error os_unlink (path_join R path n)
                    (View R m (Some (File mc)))) as [[r v] t].
        exact H.
      - exact (Hc m (path_join R path n) mc esc eq_refl Hc'). }
    specialize (IHes Hes).
    destruct (rmtree_entry R (rmtree_walk R on_rm_error) on_rm_error m
                (path_join R path n) c) as [[r1 child'] t1].
    destruct (rmtree_entries R (rmtree_walk R on_rm_error) on_rm_error
                m path es) as [[r2 rest'] t2].
    cbn [fst snd] in *. subst r1 r2. reflexivity. }
  pose proof (rmtree_stops_or_empties R m path es) as Hout.
  cbv zeta in Hout.
  destruct (rmtree_entries R (rmtree_walk R on_rm_error) on_rm_error m
              path es) as [[r entries'] tr].
  cbn [fst snd] in *. subst r.
  destruct Hout as [[_ ->] | (x & ? & ? & ? & ? & ? & Hx & _)];
    [| discriminate].
  pose proof (attempt_rmdir_removable R pm path m Hm) as Hlast.
  destruct (attempt on_rm_error os_rmdir path (View R pm (Some (Dir m []))))
    as [[r3 v3] t3].
  exact Hlast.
Qed.

(** The same on the disk: the directory is gone and nothing is raised. *)
Lemma shutil_rmtree_clearable (R : fsrules) (pm : meta) (p : list Z)
    (d : gmap (list Z) tree) (m : meta) (es : list (list Z * tree)) :
  d !! p = Some (Dir m es) ->
  clearable R pm (Dir m es) = true ->
  exists tr, shutil_rmtree R pm p on_rm_error d = (inr tt, delete p d, tr).
Proof.
  intros Hd Hc.
  pose proof (rmtree_walk_clearable R _ pm p m es eq_refl Hc) as Hr.
  pose proof (shutil_rmtree_outcome R pm p d m es Hd) as Ho.
  cbv zeta in Ho. unfold shutil_rmtree in *. rewrite Hd in *.
  destruct (rmtree_walk R on_rm_error pm p (Dir m es)) as [[r o] tr].
  cbn [fst snd] in *. subst r.
  destruct Ho as [[_ Ho] | (x & t' & Hx & _)]; [| discriminate].
  exists tr. by rewrite Ho.
Qed.

Lemma nodes_Dir (m : meta) (es : list (list Z * tree)) :
  nodes (Dir m es) = S (nodes_entries es).
Proof.
  simpl. f_equal. unfold nodes_entries.
  induction es as [| [n c] es IH]; simpl; [reflexivity |]. by rewrite IH.
Qed.

Lemma attempt_unlink_length (R : fsrules) (pm : meta) (path : list Z)
    (m : meta) :
  (length (attempt on_rm_error os_unlink path
             (View R pm (Some (File m)))).2 <= 3)%nat.
Proof.
  rewrite attempt_unlink.
  destruct (can_remove R pm m); [cbn; lia |].
  destruct (can_chmod R pm m); [| cbn; lia].
  destruct (can_remove R pm (chmod_result R S_IWRITE m)); cbn; lia.
Qed.

Lemma attempt_rmdir_length (R : fsrules) (pm : meta) (path : list Z)
    (m : meta) (es : list (list Z * tree)) :
  (length (attempt on_rm_error os_rmdir path
             (View R pm (Some (Dir m es)))).2 <= 3)%nat.
Proof.
  destruct es as [| e es].
  - rewrite attempt_rmdir_empty.
    destruct (can_remove R pm m); [cbn; lia |].
    destruct (can_chmod R pm m); [| cbn; lia].
    destruct (can_remove R pm (chmod_result R S_IWRITE m)); cbn; lia.
  - rewrite attempt_rmdir_nonempty.
    destruct (can_chmod R pm m); cbn; lia.
Qed.

(** The deletion of a directory does at most six operations for each
    entry: a listing, its [chmod] and retry, a removal, its [chmod] and
    retry. *)
Lemma rmtree_walk_length (R : fsrules) (t : tree) :
  forall (pm : meta) (path : list Z) m es, t = Dir m es ->
    (length (rmtree_walk R on_rm_error pm path t).2 <= 6 * nodes t)%nat.
Proof.
  induction t as [m | m es IH] using tree_ind'; intros pm path m' es' Heq;
    [discriminate |]. clear m' es' Heq.
  rewrite rmtree_walk_Dir, nodes_Dir, os_list_dir.
  destruct (can_list R pm m).
  - assert (Hloop :
      (length (rmtree_entries R (rmtree_walk R on_rm_error) on_rm_error m
                 path es).2 <= 6 * nodes_entries es)%nat).
    { unfold nodes_entries.
      induction IH as [| [n c] es Hc _ IHes]; [cbn; lia |].
      rewrite rmtree_entries_cons.
      assert (Hchild :
        (length (rmtree_entry R (rmtree_walk R on_rm_error) on_rm_error m
                   (path_join R path n) c).2 <= 6 * nodes c)%nat).
      { destruct c as [mc | mc esc].
        - pose proof (attempt_unlink_length R m (path_join R path n) mc) as H.
          unfold rmtree_entry.
          destruct (attempt on_rm_error os_unlink (path_join R path n)
                      (View R m (Some (File mc)))) as [[r v] t].
          cbn [snd nodes] in *. lia.
        - exact (Hc m (path_join R path n) mc esc eq_refl). }
      destruct (rmtree_entry R (rmtree_walk R on_rm_error) on_rm_error m
                  (path_join R path n) c) as [[r1 child'] t1].
      destruct (rmtree_entries R (rmtree_walk R on_rm_error) on_rm_error
                  m path es) as [[r2 rest'] t2].
      cbn [fst snd List.map] in *. unfold list_sum in *.
      cbn [fold_right] in *.
      destruct r1; cbn [snd]; rewrite ?length_app; lia. }
    destruct (rmtree_entries R (rmtree_walk R on_rm_error) on_rm_error m
                path es) as [[r entries'] tr].
    cbn [snd] in Hloop.
    destruct r as [x | []]; [cbn [snd length app]; lia |].
    pose proof (attempt_rmdir_length R pm path m entries') as Hlast.
    destruct (attempt on_rm_error os_rmdir path
                (View R pm (Some (Dir m entries')))) as [[r3 v3] t3].
    cbn [snd length app] in *. rewrite length_app. lia.
  - rewrite relist_dir.
    destruct (can_chmod R pm m); [| cbn; lia].
    cbv zeta. destruct (fd_based R); [cbn; lia |].
    destruct (can_list R pm (chmod_result R S_IWRITE m)); [| cbn; lia].
    pose proof (attempt_rmdir_length R pm path
                  (chmod_result R S_IWRITE m) es) as Hlast.
    destruct (attempt on_rm_error os_rmdir path
                (View R pm (Some (Dir (chmod_result R S_IWRITE m) es))))
      as [[r3 v3] t3].
    cbn [snd length app] in *. lia.
Qed.

(** ** Temporary directories *)

(** [tempfile.mkdtemp] takes the first free name among those it tries and
    creates the directory, or finds every one of them taken and raises. *)
Lemma mkdtemp_loop_spec (name : nat -> list Z) (fuel i : nat)
    (d : gmap (list Z) tree) :
  (mkdtemp_loop name fuel i d = (inl (FileExistsError NO_NAME), d, [])
   /\ forall j, (i <= j < i + fuel)%nat -> is_Some (d !! name j))
  \/ (exists j, (i <= j < i + fuel)%nat
      /\ d !! name j = None
      /\ (forall j', (i <= j' < j)%nat -> is_Some (d !! name j'))
      /\ mkdtemp_loop name fuel i d
         = (inr (name j), <[name j := fresh_dir]> d, [EvMkdtemp (name j)])).
Proof.
  revert i. induction fuel as [| fuel IH]; intros i.
  - left. split; [reflexivity | intros j Hj; lia].
  - cbn [mkdtemp_loop]. se_unfold. cbn.
    destruct (d !! name i) eqn:Hi.
    + destruct (IH (S i)) as [[H Hall] | (j & Hj & Hfree & Hbefore & H)];
        rewrite H.
      * left. split; [reflexivity |]. intros j Hj.
        destruct (decide (j = i)) as [-> | Hne]; [by rewrite Hi |].
        apply Hall. lia.
      * right. exists j. split; [lia |]. split; [exact Hfree |].
        split; [| reflexivity]. intros j' Hj'.
        destruct (decide (j' = i)) as [-> | Hne]; [by rewrite Hi |].
        apply Hbefore. lia.
    + right. exists i. split; [lia |]. split; [exact Hi |].
      split; [intros j' Hj'; lia | reflexivity].
Qed.

Lemma candidates_lookup (E : env) (j : nat) :
  (j < tmp_max E)%nat ->
  candidates E !! j = Some (temp_path E (U "ai-review-") j).
Proof.
  intros Hj. unfold candidates.
  rewrite list_lookup_fmap.
  change (@lookup nat nat (list nat) _ j (seq 0 (tmp_max E)))
    with (seq 0 (tmp_max E) !! j).
  rewrite lookup_seq_lt by exact Hj. reflexivity.
Qed.

Lemma candidates_elem (E : env) (p : list Z) :
  p ∈ candidates E <->
  exists j, (j < tmp_max E)%nat /\ p = temp_path E (U "ai-review-") j.
Proof.
  unfold candidates. rewrite list_elem_of_fmap. split.
  - intros (j & -> & Hj). apply elem_of_seq in Hj. exists j. split; [lia | done].
  - intros (j & Hj & ->). exists j. split; [done |]. apply elem_of_seq. lia.
Qed.

Lemma mkdtemp_spec (E : env) (d : gmap (list Z) tree) :
  (mkdtemp E (U "ai-review-") d = (inl (FileExistsError NO_NAME), d, [])
   /\ forall p, p ∈ candidates E -> is_Some (d !! p))
  \/ (exists j p, candidates E !! j = Some p
      /\ d !! p = None
      /\ (forall j' q, (j' < j)%nat -> candidates E !! j' = Some q ->
            is_Some (d !! q))
      /\ mkdtemp E (U "ai-review-") d
         = (inr p, <[p := fresh_dir]> d, [EvMkdtemp p])).
Proof.
  unfold mkdtemp.
  destruct (mkdtemp_loop_spec (temp_path E (U "ai-review-")) (tmp_max E) 0 d)
    as [[H Hall] | (j & Hj & Hfree & Hbefore & H)].
  - left. split; [exact H |]. intros p Hp.
    apply candidates_elem in Hp as (j & Hj & ->). apply Hall. lia.
  - right. exists j, (temp_path E (U "ai-review-") j).
    split; [apply candidates_lookup; lia |]. split; [exact Hfree |].
    split; [| exact H]. intros j' q Hj' Hq.
    rewrite candidates_lookup in Hq by lia. inversion Hq; subst q.
    apply Hbefore. lia.
Qed.

(** ** Child processes *)

Lemma subprocess_check_output_eq (E : env) (argv : list (list Z))
    (cwd : option (list Z)) (d : gmap (list Z) tree) :
  subprocess_check_output E argv cwd d =
  match spawn E argv cwd (entries_of (d !! workdir argv cwd)) with
  | inl e => (inl e, d, [EvNoSpawn argv cwd])
  | inr c =>
      (if returncode c =? 0 then inr (stdout c)
       else inl (CalledProcessError argv (returncode c)),
       alter (set_entries (written c)) (workdir argv cwd) d,
       [EvSpawn argv cwd (returncode c)])
  end.
Proof.
  unfold subprocess_check_output. se_simpl.
  destruct (spawn E argv cwd _) as [e | c]; [reflexivity |].
  destruct (returncode _ =? 0); reflexivity.
Qed.

Lemma subprocess_run_eq (E : env) (argv : list (list Z))
    (cwd : option (list Z)) (d : gmap (list Z) tree) :
  subprocess_run E argv cwd d =
  match spawn E argv cwd (entries_of (d !! workdir argv cwd)) with
  | inl e => (inl e, d, [EvNoSpawn argv cwd])
  | inr c =>
      (if returncode c =? 0 then inr tt
       else inl (CalledProcessError argv (returncode c)),
       alter (set_entries (written c)) (workdir argv cwd) d,
       [EvSpawn argv cwd (returncode c)])
  end.
Proof.
  unfold subprocess_run. se_unfold. rewrite subprocess_check_output_eq.
  destruct (spawn E argv cwd _) as [e | c]; [reflexivity |].
  simpl. destruct (returncode _ =? 0); simpl; rewrite ?app_nil_r; reflexivity.
Qed.

Lemma alter_workspace (d : gmap (list Z) tree) (p : list Z) (m : meta)
    (es es' : list (list Z * tree)) :
  d !! p = Some (Dir m es) ->
  alter (set_entries es') p d = <[p := Dir m es']> d.
Proof.
  intros H. apply map_eq. intros q.
  destruct (decide (p = q)) as [<- | Hne].
  - rewrite lookup_alter_eq, lookup_insert_eq, H. reflexivity.
  - rewrite lookup_alter_ne, lookup_insert_ne by done. reflexivity.
Qed.

Lemma run_step (E : env) (argv : list (list Z)) (cwd : option (list Z))
    (d : gmap (list Z) tree) (tmp : list Z) (m : meta)
    (es : list (list Z * tree)) :
  workdir argv cwd = tmp ->
  d !! tmp = Some (Dir m es) ->
  subprocess_run E argv cwd d =
  match spawn E argv cwd es with
  | inl e => (inl e, d, [EvNoSpawn argv cwd])
  | inr c =>
      (if returncode c =? 0 then inr tt
       else inl (CalledProcessError argv (returncode c)),
       <[tmp := Dir m (written c)]> d,
       [EvSpawn argv cwd (returncode c)])
  end.
Proof.
  intros Hw Hd. rewrite subprocess_run_eq, Hw, Hd. simpl.
  destruct (spawn E argv cwd es); [reflexivity |].
  by erewrite alter_workspace.
Qed.

Lemma output_step (E : env) (argv : list (list Z)) (cwd : option (list Z))
    (d : gmap (list Z) tree) (tmp : list Z) (m : meta)
    (es : list (list Z * tree)) :
  workdir argv cwd = tmp ->
  d !! tmp = Some (Dir m es) ->
  subprocess_check_output E argv cwd d =
  match spawn E argv cwd es with
  | inl e => (inl e, d, [EvNoSpawn argv cwd])
  | inr c =>
      (if returncode c =? 0 then inr (stdout c)
       else inl (CalledProcessError argv (returncode c)),
       <[tmp := Dir m (written c)]> d,
       [EvSpawn argv cwd (returncode c)])
  end.
Proof.
  intros Hw Hd. rewrite subprocess_check_output_eq, Hw, Hd. simpl.
  destruct (spawn E argv cwd es); [reflexivity |].
  by erewrite alter_workspace.
Qed.

(** ** The four git steps *)

Ltac next_child x c H :=
  match goal with
  | |- context [spawn ?E ?a ?w ?e] =>
      destruct (spawn E a w e) as [x | c] eqn:H
  end.

(** How a resolution can go: the first [k] commands exit with status 0 and
    the next one ends as [last], with an exit status or without a child;
    the text is there when that was the diff and the status is 0.  The
    workspace holds what the last child left. *)
Lemma git_diff_run (E : env) (req : ReviewRequest) (tmp : list Z)
    (d : gmap (list Z) tree) (m : meta) (es0 : list (list Z * tree)) :
  d !! tmp = Some (Dir m es0) ->
  exists (k : nat) (last : exn + Z) (es : list (list Z * tree))
    (out : list Z),
    (k < 4)%nat
    /\ (last = inr 0 -> k = 3%nat)
    /\ match last with
       | inr rc =>
           exists a c e0,
             spawn E a c e0
             = inr {| returncode := rc; stdout := out; written := es |}
       | inl e => exists a c e0, spawn E a c e0 = inl e
       end
    /\ git_diff E req tmp d =
       (git_result req tmp k last out, <[tmp := Dir m es]> d,
        git_trace req tmp k last).
Proof.
  intros Hd. unfold git_diff, mbind, SE_bind, bind.
  erewrite run_step by (reflexivity || eassumption).
  next_child x1 c1 Hs1.
  { exists 0%nat, (inl x1), es0, [].
    split; [lia |]. split; [discriminate |]. split; [eauto |].
    rewrite insert_id by exact Hd. reflexivity. }
  destruct c1 as [rc1 out1 w1]. cbn [returncode stdout written].
  destruct (rc1 =? 0) eqn:H1.
  2:{ exists 0%nat, (inr rc1), w1, out1.
      split; [lia |].
      split; [intros H; inversion H; subst; discriminate |].
      split; [eauto |].
      unfold git_result. rewrite H1. reflexivity. }
  apply Z.eqb_eq in H1. subst rc1.
  erewrite run_step by (reflexivity || apply lookup_insert_eq).
  next_child x2 c2 Hs2.
  { exists 1%nat, (inl x2), w1, [].
    split; [lia |]. split; [discriminate |]. split; [eauto |].
    reflexivity. }
  destruct c2 as [rc2 out2 w2]. cbn [returncode stdout written].
  rewrite insert_insert_eq.
  destruct (rc2 =? 0) eqn:H2.
  2:{ exists 1%nat, (inr rc2), w2, out2.
      split; [lia |].
      split; [intros H; inversion H; subst; discriminate |].
      split; [eauto |].
      unfold git_result. rewrite H2. reflexivity. }
  apply Z.eqb_eq in H2. subst rc2.
  erewrite run_step by (reflexivity || apply lookup_insert_eq).
  next_child x3 c3 Hs3.
  { exists 2%nat, (inl x3), w2, [].
    split; [lia |]. split; [discriminate |]. split; [eauto |].
    reflexivity. }
  destruct c3 as [rc3 out3 w3]. cbn [returncode stdout written].
  rewrite insert_insert_eq.
  destruct (rc3 =? 0) eqn:H3.
  2:{ exists 2%nat, (inr rc3), w3, out3.
      split; [lia |].
      split; [intros H; inversion H; subst; discriminate |].
      split; [eauto |].
      unfold git_result. rewrite H3. reflexivity. }
  apply Z.eqb_eq in H3. subst rc3.
  erewrite output_step by (reflexivity || apply lookup_insert_eq).
  next_child x4 c4 Hs4.
  { exists 3%nat, (inl x4), w3, [].
    split; [lia |]. split; [discriminate |]. split; [eauto |].
    reflexivity. }
  destruct c4 as [rc4 out4 w4]. cbn [returncode stdout written].
  rewrite insert_insert_eq.
  exists 3%nat, (inr rc4), w4, out4.
  split; [lia |]. split; [reflexivity |]. split; [eauto |].
  unfold git_result. destruct (rc4 =? 0); reflexivity.
Qed.

(** ** Resolving a remote diff *)

Lemma or_empty_default (o : option (list Z)) : or_empty o = default [] o.
Proof. destruct o as [[| c s] |]; reflexivity. Qed.

Lemma resolve_diff_local (E : env) (req : ReviewRequest)
    (d : gmap (list Z) tree) :
  remote req = false ->
  resolve_diff E req d = (inr (default [] (diff req)), d, []).
Proof.
  intros Hr. unfold remote in Hr. unfold resolve_diff. rewrite Hr.
  rewrite or_empty_default. reflexivity.
Qed.

(** A remote resolution either finds every name taken, or creates [p],
    the first free one, runs the git steps as in [git_diff_run], and then
    deletes [p] with what the last child left in it. *)
Lemma resolve_diff_remote (E : env) (req : ReviewRequest)
    (d : gmap (list Z) tree) :
  remote req = true ->
  (resolve_diff E req d = (inl (FileExistsError NO_NAME), d, [])
   /\ git_leaves E req d = None
   /\ forall q, q ∈ candidates E -> is_Some (d !! q))
  \/ (exists (i : nat) (p : list Z) (k : nat) (last : exn + Z)
        (es : list (list Z * tree)) (out : list Z),
        candidates E !! i = Some p
        /\ (forall i' q, (i' < i)%nat -> candidates E !! i' = Some q ->
              is_Some (d !! q))
        /\ d !! p = None
        /\ (k < 4)%nat
        /\ (last = inr 0 -> k = 3%nat)
        /\ match last with
           | inr rc =>
               exists a c e0,
                 spawn E a c e0
                 = inr {| returncode := rc; stdout := out; written := es |}
           | inl e => exists a c e0, spawn E a c e0 = inl e
           end
        /\ git_leaves E req d = Some (p, Dir (Meta 448 false) es)
        /\ resolve_diff E req d =
           let ws := Dir (Meta 448 false) es in
           let cleanup :=
             rmtree_walk (fs E) on_rm_error (tempdir_meta E) p ws in
           (match cleanup.1.1 with
            | inl e => inl e
            | inr _ => git_result req p k last out
            end,
            set_entry p cleanup.1.2 (<[p := ws]> d),
            EvMkdtemp p :: git_trace req p k last ++ cleanup.2)).
Proof.
  intros Hr. unfold remote in Hr. unfold resolve_diff, git_leaves.
  rewrite Hr. unfold mbind, SE_bind, bind.
  destruct (mkdtemp_spec E d)
    as [[H Hall] | (i & p & Hi & Hp & Hbefore & H)]; rewrite H.
  - left. split; [reflexivity |]. split; [reflexivity | exact Hall].
  - right.
    destruct (git_diff_run E req p (<[p := fresh_dir]> d)
                (Meta 448 false) [] (lookup_insert_eq _ _ _))
      as (k & last & es & out & Hk & Hrc & Hes & Hrun).
    rewrite insert_insert_eq in Hrun.
    exists i, p, k, last, es, out.
    split; [exact Hi |]. split; [exact Hbefore |]. split; [exact Hp |].
    split; [exact Hk |]. split; [exact Hrc |]. split; [exact Hes |].
    unfold try_finally. rewrite Hrun.
    split; [by rewrite lookup_insert_eq |].
    unfold shutil_rmtree. rewrite lookup_insert_eq.
    destruct (rmtree_walk (fs E) on_rm_error (tempdir_meta E) p
                (Dir (Meta 448 false) es)) as [[r' o] tr'].
    cbn [fst snd]. destruct r'; reflexivity.
Qed.

(** The analysis steps leave the disk alone and do nothing observable. *)
Lemma analyse_pure (E : env) (cfg : yaml) (req : ReviewRequest)
    (txt : list Z) (d : gmap (list Z) tree) :
  analyse E cfg req txt d = ((analyse E cfg req txt d).1.1, d, []).
Proof.
  unfold analyse. se_unfold.
  destruct (getitem cfg (U "rules")); simpl; [reflexivity |].
  destruct (run_rule_checks E _ _ _ _ _); simpl; [reflexivity |].
  destruct (getitem cfg (U "ai_review")); simpl; [reflexivity |].
  destruct (run_ai_review E _ _); reflexivity.
Qed.

(** ** The review endpoint as a whole *)

Lemma review_eq (E : env) (cfg : yaml) (req : ReviewRequest)
    (d : gmap (list Z) tree) :
  review E cfg req d =
  (to_http review_except
     (match (resolve_diff E req d).1.1 with
      | inl e => inl e
      | inr txt => (analyse E cfg req txt (resolve_diff E req d).1.2).1.1
      end),
   (resolve_diff E req d).1.2,
   (resolve_diff E req d).2).
Proof.
  unfold review, review_body, mbind, SE_bind, bind.
  destruct (resolve_diff E req d) as [[[e | txt] d1] t1]; simpl.
  - reflexivity.
  - rewrite analyse_pure. simpl. rewrite app_nil_r. reflexivity.
Qed.

Lemma created_spawns (cmds : list (list (list Z) * option (list Z)))
    (rcs : list Z) :
  created (spawns cmds rcs) = [].
Proof.
  unfold created, spawns. revert rcs.
  induction cmds as [| c cmds IH]; intros [| rc rcs]; simpl; auto.
Qed.

Lemma spawned_spawns (cmds : list (list (list Z) * option (list Z)))
    (rcs : list Z) :
  spawned (spawns cmds rcs) = zip (List.map fst cmds) rcs.
Proof.
  unfold spawned, spawns. revert rcs.
  induction cmds as [| c cmds IH]; intros [| rc rcs]; simpl; auto.
  by rewrite IH.
Qed.

Lemma created_git_trace (req : ReviewRequest) (p : list Z) (k : nat)
    (last : exn + Z) :
  created (git_trace req p k last) = [].
Proof.
  unfold git_trace. rewrite created_app, created_spawns.
  destruct (git_cmds req p !! k) as [c |]; [| reflexivity].
  destruct last; reflexivity.
Qed.

Lemma spawned_git_trace (req : ReviewRequest) (p : list Z) (k : nat)
    (last : exn + Z) :
  (k < 4)%nat ->
  spawned (git_trace req p k last)
  = zip (List.map fst (git_cmds req p)) (statuses k last).
Proof.
  intros Hk. unfold git_trace, statuses.
  rewrite spawned_app, spawned_spawns.
  do 4 (destruct k as [| k]; [destruct last; reflexivity |]). lia.
Qed.

Lemma created_resolution (req : ReviewRequest) (p : list Z) (k : nat)
    (last : exn + Z) (tr' : list event) :
  created tr' = [] ->
  created (EvMkdtemp p :: git_trace req p k last ++ tr') = [p].
Proof.
  intros H.
  transitivity (p :: (created (git_trace req p k last) ++ created tr')).
  { unfold created. rewrite <- omap_app. reflexivity. }
  rewrite created_git_trace, H. reflexivity.
Qed.

Lemma spawned_resolution (req : ReviewRequest) (p : list Z) (k : nat)
    (last : exn + Z) (tr' : list event) :
  (k < 4)%nat ->
  spawned tr' = [] ->
  spawned (EvMkdtemp p :: git_trace req p k last ++ tr')
  = zip (List.map fst (git_cmds req p)) (statuses k last).
Proof.
  intros Hk H.
  transitivity (spawned (git_trace req p k last) ++ spawned tr').
  { unfold spawned. rewrite <- omap_app. reflexivity. }
  rewrite spawned_git_trace, H, app_nil_r by exact Hk. reflexivity.
Qed.

(** The deletion of a directory begins by listing it. *)
Lemma rmtree_walk_lists_first (R : fsrules) (pm : meta) (path : list Z)
    (m : meta) (es : list (list Z * tree)) :
  exists ok tr,
    (rmtree_walk R on_rm_error pm path (Dir m es)).2 = EvList path ok :: tr.
Proof.
  rewrite rmtree_walk_Dir, os_list_dir.
  destruct (can_list R pm m).
  - destruct (rmtree_entries _ _ _ _ path es) as [[[e | []] entries'] tr].
    + eexists _, _. reflexivity.
    + destruct (attempt on_rm_error os_rmdir path
                  (View R pm (Some (Dir m entries')))) as [[r3 s3] t3].
      eexists _, _. reflexivity.
  - destruct (on_rm_error list_func path (refused R m path)
                (View R pm (Some (Dir m es)))) as [[[e | []] v1] t1].
    + eexists _, _. reflexivity.
    + destruct (fd_based R); [eexists _, _; reflexivity |].
      destruct (attempt on_rm_error os_rmdir path v1) as [[r3 v3] t3].
      eexists _, _. reflexivity.
Qed.

(** Whatever is raised inside [review] comes out as a 500. *)
Lemma review_except_500 {A} (e : exn) :
  exists detail, @to_http A review_except (inl e) = HttpError 500 detail.
Proof.
  unfold to_http, review_except.
  destruct (is_CalledProcessError e); eexists; reflexivity.
Qed.

(** The git subcommand of a command line. *)
Lemma git_cmds_NoDup (req : ReviewRequest) (p : list Z) :
  NoDup (List.map fst (git_cmds req p)).
Proof.
  apply (NoDup_fmap_1 (fun argv : list (list Z) => argv !! 1%nat)).
  change (NoDup [Some (U "clone"); Some (U "fetch"); Some (U "checkout");
                 Some (U "diff")]).
  apply (bool_decide_unpack _). vm_compute. reflexivity.
Qed.

(** The deletion of the workspace of a remote request, on the disk. *)
Lemma shutil_rmtree_workspace (R : fsrules) (pm : meta) (p : list Z)
    (t : tree) (d : gmap (list Z) tree) :
  shutil_rmtree R pm p on_rm_error (<[p := t]> d) =
  ((rmtree_walk R on_rm_error pm p t).1.1,
   set_entry p (rmtree_walk R on_rm_error pm p t).1.2 (<[p := t]> d),
   (rmtree_walk R on_rm_error pm p t).2).
Proof.
  unfold shutil_rmtree. rewrite lookup_insert_eq.
  destruct (rmtree_walk R on_rm_error pm p t) as [[r o] tr]. reflexivity.
Qed.

Lemma lookup_set_entry (p : list Z) (o : option tree)
    (d : gmap (list Z) tree) :
  set_entry p o d !! p = o.
Proof.
  destruct o as [t |]; cbn [set_entry].
  - apply lookup_insert_eq.
  - apply lookup_delete_eq.
Qed.

Lemma git_spawned_shape (req : ReviewRequest) (p : list Z) (k : nat)
    (lst : exn + Z) :
  (k < 4)%nat ->
  let sp := zip (List.map fst (git_cmds req p)) (statuses k lst) in
  NoDup sp.*1
  /\ forall a r, (a, r) ∈ sp -> r <> 0 ->
       lst = inr r
       /\ a = nth k (List.map fst (git_cmds req p)) []
       /\ last sp = Some (a, r).
Proof.
  intros Hk sp.
  pose proof (git_cmds_NoDup req p) as Hnd.
  assert (Hpre : sp.*1 `prefix_of` List.map fst (git_cmds req p)).
  { subst sp.
    do 4 (destruct k as [| k]; [destruct lst; eexists; reflexivity |]).
    lia. }
  split.
  - destruct Hpre as [rest Hrest]. rewrite Hrest in Hnd.
    by apply NoDup_app in Hnd as [? _].
  - subst sp. intros a r Hin Hr.
    do 4 (destruct k as [| k];
          [ destruct lst as [x | rc];
            cbn [zip zip_with replicate app List.map fst git_cmds nth
                 statuses] in *;
            repeat (apply elem_of_cons in Hin as [Hin | Hin];
                    [ inversion Hin; subst; try congruence;
                      repeat split; reflexivity |]);
            inversion Hin |]).
    lia.
Qed.

(** ** The workspace is deleted *)

(** C1, as the code has it: a remote-diff request starts the deletion of
    the workspace it created on every exit path, whether the clone, fetch,
    checkout or diff failed or all succeeded, and whatever the later
    stages do.  The workspace is absent afterwards exactly when the
    deletion returns without raising.  It does, and the disk is as the
    request found it, when every directory the git commands left in the
    workspace can be listed and every entry of it can be removed, at the
    first try or after the [chmod] of the handler. *)
Theorem C1_workspace_removed (E : env) (cfg : yaml) (req : ReviewRequest)
    (d : gmap pystr tree) :
  remote req = true ->
  (forall p : pystr,
     p ∈ created (review E cfg req d).2 ->
     exists t ok,
       git_leaves E req d = Some (p, t)
       /\ EvList p ok ∈ (review E cfg req d).2)
  /\ (forall (p : pystr) (t : tree),
        git_leaves E req d = Some (p, t) ->
        p ∈ created (review E cfg req d).2
        /\ ((review E cfg req d).1.2 !! p = None
            <-> (shutil_rmtree (fs E) (tempdir_meta E) p on_rm_error
                   (<[p := t]> d)).1.1 = inr tt)
        /\ (clearable (fs E) (tempdir_meta E) t = true ->
            (review E cfg req d).1.2 = d
            /\ (review E cfg req d).1.2 !! p = None)).
Proof.
  intros Hr. rewrite review_eq. cbn [fst snd].
  destruct (resolve_diff_remote E req d Hr)
    as [(H & Hl & _)
       | (i & p & k & last & es & out & _ & _ & Hp & Hk & _ & _ & Hl & H)];
    rewrite H; cbn [fst snd].
  - split.
    + intros p Hin. simpl in Hin. inversion Hin.
    + intros p t Hl'. congruence.
  - pose proof (rmtree_walk_trace (fs E) (Dir (Meta 448 false) es)
                  (tempdir_meta E) p _ _ eq_refl) as (_ & Hcr & _).
    split.
    + intros q Hq. rewrite created_resolution in Hq by exact Hcr.
      apply list_elem_of_singleton in Hq as ->.
      destruct (rmtree_walk_lists_first (fs E) (tempdir_meta E) p
                  (Meta 448 false) es) as (ok & tr & Htr).
      exists (Dir (Meta 448 false) es), ok. split; [exact Hl |].
      apply list_elem_of_further, elem_of_app. right.
      rewrite Htr. apply list_elem_of_here.
    + intros q t Hl'. rewrite Hl in Hl'. inversion Hl'; subst q t.
      rewrite created_resolution by exact Hcr.
      rewrite shutil_rmtree_workspace, lookup_set_entry. cbn [fst snd].
      split; [apply list_elem_of_here |].
      destruct (rmtree_walk_outcome (fs E) (Dir (Meta 448 false) es)
                  (tempdir_meta E) p _ _ eq_refl)
        as [[Hok Hgone] | (x & t' & Hx & Hleft)].
      * rewrite Hok, Hgone. split; [split; reflexivity |].
        intros _. cbn [set_entry].
        split; [by apply delete_insert_id | reflexivity].
      * rewrite Hx, Hleft. split; [split; discriminate |].
        intros Hc.
        pose proof (rmtree_walk_clearable (fs E) _ (tempdir_meta E) p _ _
                      eq_refl Hc) as Hok.
        congruence.
Qed.

Lemma C1_workspace_removed_witness :
  let E := sample_env (fails_at "fetch") sample_checkout [] ∅
             (sample_answer None) in
  let p := U "/tmp/ai-review-0" in
  let t := Dir (Meta 448 false) sample_checkout in
  remote sample_remote = true
  /\ git_leaves E sample_remote ∅ = Some (p, t)
  /\ clearable (fs E) (tempdir_meta E) t = true
  /\ p ∈ created (review E sample_cfg sample_remote ∅).2
  /\ (review E sample_cfg sample_remote ∅).1.2 = ∅
  /\ (review E sample_cfg sample_remote ∅).1.2 !! p = None.
Proof.
  intros E p t.
  assert (Hr : remote sample_remote = true) by reflexivity.
  assert (Hl : git_leaves E sample_remote ∅ = Some (p, t))
    by (vm_compute; reflexivity).
  assert (Hc : clearable (fs E) (tempdir_meta E) t = true)
    by (vm_compute; reflexivity).
  split; [exact Hr |]. split; [exact Hl |]. split; [exact Hc |].
  destruct (proj2 (C1_workspace_removed E sample_cfg sample_remote ∅ Hr)
              p t Hl) as (Hin & _ & Hgone).
  split; [exact Hin | exact (Hgone Hc)].
Defined.

(** C1 fails as stated.  On POSIX: the fetch fails, the clone has left a
    directory without write permission that holds a file, and the
    workspace is still on disk when the request is over.  On Windows: the
    same with a pack file that another process holds. *)
Lemma C1_locked_entry_keeps_workspace :
  let out :=
    review (sample_env (fails_at "fetch") locked_checkout [] ∅
              (sample_answer None)) sample_cfg sample_remote ∅ in
  let out' :=
    review (windows_env (fails_at "fetch") held_checkout [] ∅
              (sample_answer None)) sample_cfg sample_remote ∅ in
  remote sample_remote = true
  /\ created out.2 = [U "/tmp/ai-review-0"]
  /\ out.1.2 !! U "/tmp/ai-review-0"
     = Some (Dir (Meta 448 false)
               [ (U "vendor", Dir (Meta 365 false)
                                [ (U "lib.py", File (Meta 128 false)) ]) ])
  /\ created out'.2 = [U "C:\Temp\ai-review-0"]
  /\ out'.1.2 !! U "C:\Temp\ai-review-0"
     = Some (Dir (Meta 448 false)
               [ (U ".git", Dir (Meta 493 false)
                              [ (U "pack-1.idx", File (Meta 438 true)) ]) ]).
Proof. vm_compute. repeat split; reflexivity. Qed.

(** ** Git failures *)

(** C4, as the code has it: when a git step of a remote-diff request exits
    non-zero, no command is run twice, the failing command is the last one
    run, and [/review] answers 500.  The detail is ["Git error: "]
    followed by the failure's message when the deletion of the workspace
    returns; when the deletion raises, its exception replaces the git
    failure and the detail is the message of that exception, without the
    prefix. *)
Theorem C4_git_failure (E : env) (cfg : yaml) (req : ReviewRequest)
    (d : gmap pystr tree) (argv : list pystr) (rc : Z) :
  remote req = true ->
  (argv, rc) ∈ spawned (review E cfg req d).2 ->
  rc <> 0 ->
  (exists detail, (review E cfg req d).1.1 = HttpError 500 detail)
  /\ NoDup (spawned (review E cfg req d).2).*1
  /\ last (spawned (review E cfg req d).2) = Some (argv, rc)
  /\ exists (p : pystr) (t : tree),
       git_leaves E req d = Some (p, t)
       /\ match (shutil_rmtree (fs E) (tempdir_meta E) p on_rm_error
                   (<[p := t]> d)).1.1 with
          | inr _ =>
              (review E cfg req d).1.1
              = HttpError 500
                  (U "Git error: " ++ str_exn (CalledProcessError argv rc))
          | inl x =>
              is_CalledProcessError x = false
              /\ (review E cfg req d).1.1 = HttpError 500 (str_exn x)
          end.
Proof.
  intros Hr Hin Hrc. rewrite review_eq in *. cbn [fst snd] in *.
  destruct (resolve_diff_remote E req d Hr)
    as [(H & _ & _)
       | (i & p & k & lst & es & out & _ & _ & Hp & Hk & _ & _ & Hl & H)];
    rewrite H in *; cbn [fst snd] in *.
  - inversion Hin.
  - pose proof (rmtree_walk_trace (fs E) (Dir (Meta 448 false) es)
                  (tempdir_meta E) p _ _ eq_refl) as (Hsp & _ & Hdt).
    rewrite spawned_resolution in * by assumption.
    destruct (git_spawned_shape req p k lst Hk) as (Hnd & Hne).
    destruct (Hne argv rc Hin Hrc) as (-> & -> & Hlast).
    assert (Hz : (rc =? 0) = false) by (apply Z.eqb_neq; exact Hrc).
    split; [| split; [exact Hnd | split; [exact Hlast |]]].
    + destruct ((rmtree_walk (fs E) on_rm_error (tempdir_meta E) p _).1.1)
        as [e | []]; [apply review_except_500 |].
      unfold git_result. rewrite Hz. apply review_except_500.
    + exists p, (Dir (Meta 448 false) es). split; [exact Hl |].
      unfold shutil_rmtree. rewrite lookup_insert_eq.
      destruct (rmtree_walk (fs E) on_rm_error (tempdir_meta E) p
                  (Dir (Meta 448 false) es)) as [[r o] tr'].
      cbn [fst snd] in *. destruct r as [x | []].
      * destruct Hdt as [Hx _]. apply deletion_error_not_git in Hx.
        split; [exact Hx |].
        unfold to_http, review_except. rewrite Hx. reflexivity.
      * unfold git_result. rewrite Hz. reflexivity.
Qed.

Lemma C4_git_failure_witness :
  let E := sample_env (fails_at "fetch") locked_checkout [] ∅
             (sample_answer None) in
  let argv := [U "git"; U "fetch"; U "origin"; U "pull/7/head:pr_branch"] in
  remote sample_remote = true
  /\ (argv, 128) ∈ spawned (review E sample_cfg sample_remote ∅).2
  /\ 128 <> 0
  /\ last (spawned (review E sample_cfg sample_remote ∅).2)
     = Some (argv, 128)
  /\ exists (p : pystr) (t : tree),
       git_leaves E sample_remote ∅ = Some (p, t)
       /\ match (shutil_rmtree (fs E) (tempdir_meta E) p on_rm_error
                   (<[p := t]> ∅)).1.1 with
          | inr _ =>
              (review E sample_cfg sample_remote ∅).1.1
              = HttpError 500
                  (U "Git error: "
                     ++ str_exn (CalledProcessError argv 128))
          | inl x =>
              is_CalledProcessError x = false
              /\ (review E sample_cfg sample_remote ∅).1.1
                 = HttpError 500 (str_exn x)
          end.
Proof.
  intros E argv.
  assert (Hr : remote sample_remote = true) by reflexivity.
  assert (Hin : (argv, 128) ∈ spawned (review E sample_cfg sample_remote ∅).2).
  { vm_compute. apply list_elem_of_further, list_elem_of_here. }
  assert (Hrc : 128 <> 0) by lia.
  split; [exact Hr |]. split; [exact Hin |]. split; [exact Hrc |].
  exact (proj2 (proj2
           (C4_git_failure E sample_cfg sample_remote ∅ argv 128
              Hr Hin Hrc))).
Defined.

(** The failing input of C4: the fetch exits with status 128, the clone
    has left a directory without write permission that holds a file, the
    deletion raises, and the detail of the 500 is the deletion's message,
    without the git prefix.  The same on Windows with a pack file that is
    held by another process. *)
Lemma C4_deletion_error_masks_git_error :
  let out :=
    review (sample_env (fails_at "fetch") locked_checkout [] ∅
              (sample_answer None)) sample_cfg sample_remote ∅ in
  let out' :=
    review (windows_env (fails_at "fetch") held_checkout [] ∅
              (sample_answer None)) sample_cfg sample_remote ∅ in
  remote sample_remote = true
  /\ spawned out.2
     = [ ([U "git"; U "clone"; U "--depth"; U "1";
           U "https://example.org/r.git"; U "/tmp/ai-review-0"], 0);
         ([U "git"; U "fetch"; U "origin"; U "pull/7/head:pr_branch"], 128) ]
  /\ out.1.1
     = HttpError 500
         (U "[Errno 13] Permission denied: '/tmp/ai-review-0/vendor/lib.py'")
  /\ (spawned out'.2).*2 = [0; 128]
  /\ out'.1.1
     = HttpError 500
         (U "[WinError 32] The process cannot access the file because it is being used by another process: 'C:\\Temp\\ai-review-0\\.git\\pack-1.idx'").
Proof. vm_compute. repeat split; reflexivity. Qed.

(** ** The deletion handler *)



(** The deletion of that witness: the read-only pack file is unlinked at
    the retry, after the [chmod]. *)
Lemma deletion_of_read_only_file :
  let E := windows_env all_succeed sample_checkout [] ∅
             (sample_answer None) in
  let p := U "C:\Temp\ai-review-0" in
  let pack := U "C:\Temp\ai-review-0\.git\pack-1.idx" in
  (shutil_rmtree (fs E) (tempdir_meta E) p on_rm_error
     {[ p := Dir (Meta 448 false) sample_checkout ]})
  = (inr tt, ∅,
     [ EvList p true;
       EvUnlink (U "C:\Temp\ai-review-0\README.md") true;
       EvList (U "C:\Temp\ai-review-0\.git") true;
       EvUnlink pack false; EvChmod pack S_IWRITE true; EvUnlink pack true;
       EvRmdir (U "C:\Temp\ai-review-0\.git") true;
       EvRmdir p true ]).
Proof. vm_compute. reflexivity. Qed.


(** ** Requests without a usable remote *)

(** C9: an empty [repo_url] or a [pr_number] of 0 counts as absent: the
    remote branch is not taken, no workspace is created, nothing is run,
    the disk is untouched, and the diff text is the [diff] field, or the
    empty string when that is unset. *)
Theorem C9_falsy_remote_fields (E : env) (cfg : yaml) (req : ReviewRequest)
    (d : gmap pystr tree) :
  repo_url req = Some [] \/ pr_number req = Some 0 ->
  remote req = false
  /\ resolve_diff E req d
     = (inr (match diff req with Some s => s | None => [] end), d, [])
  /\ (review E cfg req d).1.2 = d
  /\ (review E cfg req d).2 = [].
Proof.
  intros H.
  assert (Hr : remote req = false).
  { unfold remote. destruct H as [-> | ->]; simpl; [reflexivity |].
    apply andb_false_r. }
  split; [exact Hr |].
  rewrite review_eq, (resolve_diff_local E req d Hr).
  cbn [fst snd]. split; [reflexivity |]. split; reflexivity.
Qed.

Lemma C9_falsy_remote_fields_witness :
  let req := {| diff := Some (U "+ x"); repo_url := Some (U "https://e.org/r");
                pr_number := Some 0; base := U "main" |} in
  let E := sample_env all_succeed sample_checkout [] ∅ (sample_answer None) in
  pr_number req = Some 0
  /\ resolve_diff E req ∅ = (inr (U "+ x"), ∅, []).
Proof.
  intros req E. split; [reflexivity |].
  exact (proj1 (proj2
    (C9_falsy_remote_fields E sample_cfg req ∅ (or_intror eq_refl)))).
Defined.

(** C2: a request with neither a diff nor a usable (repo_url, pr_number)
    pair resolves to the empty diff text without touching the disk and
    without running anything; both backends are given the empty text, and
    the answer is the 200 response whose categories are what the rule
    backend reported for it (the empty sequence for a category it did not
    report) and whose comments and score are those of the AI backend. *)
Theorem C2_empty_request_is_analysed (E : env) (cfg : yaml)
    (req : ReviewRequest) (d : gmap pystr tree)
    (rules_cfg ai_cfg : yaml) (rules : gmap pystr (list pystr))
    (comments : list pystr) (score : Q) :
  truthy_str (diff req) = false ->
  remote req = false ->
  getitem cfg (U "rules") = inr rules_cfg ->
  getitem cfg (U "ai_review") = inr ai_cfg ->
  run_rule_checks E [] rules_cfg (repo_url req) (pr_number req) (base req)
    = inr rules ->
  run_ai_review E [] ai_cfg = inr (comments, score) ->
  resolve_diff E req d = (inr [], d, [])
  /\ review E cfg req d
     = (Ok200
          {| naming_convention :=
               match rules !! U "naming_convention" with
               | Some v => v
               | None => []
               end;
             complexity :=
               match rules !! U "complexity" with
               | Some v => v
               | None => []
               end;
             security :=
               match rules !! U "security" with
               | Some v => v
               | None => []
               end;
             ai_comments := comments;
             ai_score := score |},
        d, []).
Proof.
  intros Hd Hr H1 H2 H3 H4.
  assert (Hres : resolve_diff E req d = (inr [], d, [])).
  { rewrite (resolve_diff_local E req d Hr).
    destruct (diff req) as [[| c s] |]; try reflexivity. discriminate Hd. }
  split; [exact Hres |].
  rewrite review_eq, Hres. cbn [fst snd].
  unfold analyse. se_unfold. rewrite H1. simpl. rewrite H3. simpl.
  rewrite H2. simpl. rewrite H4. reflexivity.
Qed.

Lemma C2_empty_request_is_analysed_witness :
  let req := {| diff := None; repo_url := None; pr_number := None;
                base := U "main" |} in
  let rules : gmap (list Z) (list (list Z)) :=
    {[ U "complexity" := [U "nothing to measure"] ]} in
  let E := sample_env all_succeed sample_checkout [] rules
             (sample_answer None) in
  truthy_str (diff req) = false
  /\ remote req = false
  /\ review E sample_cfg req ∅
     = (Ok200 {| naming_convention := [];
                 complexity := [U "nothing to measure"];
                 security := [];
                 ai_comments := [[]];
                 ai_score := 0.5 |}, ∅, []).
Proof.
  intros req rules E. split; [reflexivity |]. split; [reflexivity |].
  exact (proj2
    (C2_empty_request_is_analysed E sample_cfg req ∅ (YMap ∅) (YMap ∅)
       rules [[]] 0.5%Q eq_refl eq_refl eq_refl eq_refl eq_refl eq_refl)).
Defined.
(** ** Assembling the response *)

(** C3: whatever mapping the rule backend gives, the analysis does not
    raise at assembly, and each of the three categories of the response is
    exactly the backend's sequence under that key, or the empty sequence
    when the key is absent; the AI comments and score pass through as
    they are. *)
Theorem C3_assembly_is_structural (E : env) (cfg : yaml)
    (req : ReviewRequest) (txt : list Z) (d : gmap pystr tree)
    (rules_cfg ai_cfg : yaml) (rules : gmap pystr (list pystr))
    (ai : list pystr * Q) :
  getitem cfg (U "rules") = inr rules_cfg ->
  run_rule_checks E txt rules_cfg (repo_url req) (pr_number req) (base req)
    = inr rules ->
  getitem cfg (U "ai_review") = inr ai_cfg ->
  run_ai_review E txt ai_cfg = inr ai ->
  exists resp,
    (analyse E cfg req txt d).1.1 = inr resp
    /\ naming_convention resp
       = match rules !! U "naming_convention" with
         | Some v => v
         | None => []
         end
    /\ complexity resp
       = match rules !! U "complexity" with Some v => v | None => [] end
    /\ security resp
       = match rules !! U "security" with Some v => v | None => [] end
    /\ ai_comments resp = ai.1
    /\ ai_score resp = ai.2.
Proof.
  intros H1 H2 H3 H4. exists (assemble rules ai.1 ai.2).
  split.
  - unfold analyse. se_unfold. rewrite H1. simpl. rewrite H2. simpl.
    rewrite H3. simpl. rewrite H4. reflexivity.
  - unfold assemble, rules_get. simpl. repeat split.
Qed.

Lemma C3_assembly_is_structural_witness :
  let rules : gmap (list Z) (list (list Z)) :=
    {[ U "security" := [U "eval"; U "eval"] ]} in
  let E := sample_env all_succeed sample_checkout [] rules
             (sample_answer None) in
  exists resp,
    (analyse E sample_cfg sample_remote (U "+ eval(x)") ∅).1.1 = inr resp
    /\ naming_convention resp = []
    /\ complexity resp = []
    /\ security resp = [U "eval"; U "eval"]
    /\ ai_comments resp = [U "+ eval(x)"]
    /\ ai_score resp = 0.5%Q.
Proof.
  intros rules E.
  exact (C3_assembly_is_structural E sample_cfg sample_remote
           (U "+ eval(x)") ∅ (YMap ∅) (YMap ∅) rules
           ([U "+ eval(x)"], 0.5%Q) eq_refl eq_refl eq_refl eq_refl).
Defined.

(** ** Missing configuration sections *)

(** With options that can be read, an inline suggestion is what is made
    of the chat call. *)
Lemma inline_body_options (E : env) (cfg : yaml)
    (req : InlineSuggestionRequest) (model temperature : yaml)
    (max_tokens : Z) :
  chat_options cfg = inr (model, temperature, max_tokens) ->
  inline_suggestion_body E cfg req
  = match chat_create E model (prompt req) temperature max_tokens with
    | inl e => inl e
    | inr response => suggestion_of response
    end.
Proof.
  intros Ho. unfold inline_suggestion_body, chat_create. rewrite Ho.
  destruct (openai E); reflexivity.
Qed.




(** ** Inline suggestions *)

(** C5 does not hold of the code: when the first choice has no content or
    an empty one, the [HTTPException] raised at line 134 is caught by the
    [except Exception] of line 137 and wrapped again, so the detail of the
    500 is [str] of that exception, not its detail. *)
Theorem C5_no_content_detail (E : env) (cfg : yaml)
    (req : InlineSuggestionRequest) (model temperature : yaml)
    (max_tokens : Z) (c : chat_choice) (cs : list chat_choice) :
  chat_options cfg = inr (model, temperature, max_tokens) ->
  chat_create E model (prompt req) temperature max_tokens
    = inr {| choices := c :: cs |} ->
  choice_content c = None \/ choice_content c = Some [] ->
  inline_suggestion E cfg req
  = HttpError 500 (U "500: No suggestion returned from AI model.")
  /\ inline_suggestion E cfg req
     <> HttpError 500 (U "No suggestion returned from AI model.").
Proof.
  intros Ho Hc Hcontent.
  assert (H : inline_suggestion E cfg req
              = HttpError 500 (U "500: No suggestion returned from AI model.")).
  { unfold inline_suggestion.
    rewrite (inline_body_options E _ req _ _ _ Ho), Hc.
    unfold suggestion_of. cbn [choices].
    destruct Hcontent as [-> | ->]; reflexivity. }
  split; [exact H |]. rewrite H. intros Heq. inversion Heq.
Qed.

Lemma C5_no_content_detail_witness :
  let E := sample_env all_succeed [] [] ∅ (sample_answer (Some [])) in
  inline_suggestion E sample_cfg sample_line
  = HttpError 500 (U "500: No suggestion returned from AI model.")
  /\ inline_suggestion E sample_cfg sample_line
     <> HttpError 500 (U "No suggestion returned from AI model.").
Proof.
  intros E.
  exact (C5_no_content_detail E sample_cfg sample_line
           (YStr (U "gpt-4o-mini")) (YFloat 0.2) 100
           {| message := Some {| content := Some [] |} |} []
           eq_refl eq_refl (or_intror eq_refl)).
Defined.

(** *** Trimming *)

Lemma lstrip_spec (s : list Z) :
  exists l, s = l ++ lstrip s /\ blank l
            /\ forall c, head (lstrip s) = Some c -> isspace c = false.
Proof.
  induction s as [| c s (l & Hs & Hl & Hh)]; simpl.
  - exists []. repeat split; [constructor | discriminate].
  - destruct (isspace c) eqn:Hc.
    + exists (c :: l). simpl. rewrite <- Hs. repeat split; [| exact Hh].
      constructor; assumption.
    + exists []. repeat split; [constructor |].
      simpl. intros c' [= <-]. exact Hc.
Qed.

Lemma lstrip_blank (s : list Z) : blank s -> lstrip s = [].
Proof.
  induction 1 as [| c s Hc _ IH]; simpl; [reflexivity |].
  rewrite Hc. exact IH.
Qed.

(** [strip] cuts a blank prefix and a blank suffix, and what is left
    neither starts nor ends with white space. *)
Lemma strip_spec (s : list Z) :
  exists l r,
    s = l ++ strip s ++ r /\ blank l /\ blank r
    /\ (forall c, head (strip s) = Some c -> isspace c = false)
    /\ (forall c, last (strip s) = Some c -> isspace c = false).
Proof.
  unfold strip, rstrip.
  destruct (lstrip_spec s) as (l & Hs & Hl & Hh).
  destruct (lstrip_spec (rev (lstrip s))) as (r' & Hr & Hr' & Hh').
  set (t := lstrip s) in *. set (u := lstrip (rev t)) in *.
  assert (Ht : t = rev u ++ rev r').
  { rewrite <- (rev_involutive t), Hr, rev_app_distr. reflexivity. }
  exists l, (rev r'). repeat split.
  - rewrite <- Ht. exact Hs.
  - exact Hl.
  - unfold blank in *. apply Forall_rev. exact Hr'.
  - intros c Hc. apply Hh. rewrite Ht.
    destruct (rev u); [discriminate Hc | exact Hc].
  - intros c Hc. apply Hh'. rewrite <- (rev_involutive u).
    rewrite last_Some in Hc. destruct Hc as [w Hw]. rewrite Hw.
    rewrite rev_app_distr. reflexivity.
Qed.

(** Nothing is left exactly of the blank strings. *)
Lemma strip_empty_iff (s : list Z) : strip s = [] <-> blank s.
Proof.
  split.
  - intros H. destruct (strip_spec s) as (l & r & Hs & Hl & Hr & _).
    rewrite H in Hs. rewrite Hs. unfold blank in *.
    apply Forall_app. split; assumption.
  - intros H. unfold strip. rewrite (lstrip_blank s H). reflexivity.
Qed.

(** The suggestion is the content, trimmed; it is empty when the content
    is blank. *)
Lemma inline_suggestion_trimmed (E : env) (cfg : yaml)
    (req : InlineSuggestionRequest) (model temperature : yaml)
    (max_tokens : Z) (c : chat_choice) (cs : list chat_choice)
    (text : list Z) :
  chat_options cfg = inr (model, temperature, max_tokens) ->
  chat_create E model (prompt req) temperature max_tokens
    = inr {| choices := c :: cs |} ->
  choice_content c = Some text ->
  text <> [] ->
  inline_suggestion E cfg req = Ok200 {| suggestedText := strip text |}.
Proof.
  intros Ho Hc Hcontent Hne.
  unfold inline_suggestion.
    rewrite (inline_body_options E _ req _ _ _ Ho), Hc.
  unfold suggestion_of. cbn [choices]. rewrite Hcontent.
  destruct text as [| ch text]; [congruence | reflexivity].
Qed.

(** The example of the specification. *)
Lemma inline_suggestion_sample :
  inline_suggestion
    (sample_env all_succeed [] [] ∅
       (sample_answer (Some (U "x = 1  # fixed spacing"))))
    sample_cfg sample_line
  = Ok200 {| suggestedText := U "x = 1  # fixed spacing" |}.
Proof. vm_compute. reflexivity. Qed.

(** C6 does not hold of the code: the content is tested for emptiness
    before it is trimmed, so a content of white space only passes the test
    and comes back as an empty suggestion with status 200. *)
Theorem C6_blank_content_gives_empty_suggestion :
  inline_suggestion
    (sample_env all_succeed [] [] ∅ (sample_answer (Some (U "   "))))
    sample_cfg sample_line
  = Ok200 {| suggestedText := [] |}.
Proof. vm_compute. reflexivity. Qed.

(** ** Decoding the diff *)

Lemma is_cont_range (b : Z) : is_cont b = true -> 128 <= b < 192.
Proof. unfold is_cont. lia. Qed.

Lemma second_ok_range (b1 b2 : Z) :
  second_ok b1 b2 = true ->
  128 <= b2 < 192
  /\ (b1 = 224 -> 160 <= b2) /\ (b1 = 237 -> b2 < 160)
  /\ (b1 = 240 -> 144 <= b2) /\ (b1 = 244 -> b2 < 144).
Proof.
  unfold second_ok, is_cont. intros H.
  destruct (b1 =? 224) eqn:E1; [lia |].
  destruct (b1 =? 237) eqn:E2; [lia |].
  destruct (b1 =? 240) eqn:E3; [lia |].
  destruct (b1 =? 244) eqn:E4; lia.
Qed.

Ltac decide_ltb :=
  repeat match goal with
         | |- context [?a <? ?b] =>
             first [ rewrite (proj2 (Z.ltb_lt a b)) by lia
                   | rewrite (proj2 (Z.ltb_ge a b)) by lia ]
         end.

Lemma encode_one (b : Z) : b < 128 -> utf8_encode_cp b = [b].
Proof. intros H. unfold utf8_encode_cp. decide_ltb. reflexivity. Qed.

Lemma encode_two (b1 b2 : Z) :
  194 <= b1 < 224 -> 128 <= b2 < 192 ->
  utf8_encode_cp ((b1 - 192) * 64 + (b2 - 128)) = [b1; b2].
Proof.
  intros H1 H2. unfold utf8_encode_cp. decide_ltb.
  repeat f_equal; Z.div_mod_to_equations; lia.
Qed.

Lemma encode_three (b1 b2 b3 : Z) :
  224 <= b1 < 240 -> 128 <= b2 < 192 -> (b1 = 224 -> 160 <= b2) ->
  128 <= b3 < 192 ->
  utf8_encode_cp ((b1 - 224) * 4096 + (b2 - 128) * 64 + (b3 - 128))
  = [b1; b2; b3].
Proof.
  intros H1 H2 H2' H3. unfold utf8_encode_cp.
  assert (b1 = 224 \/ 225 <= b1) as [-> | Hb] by lia;
    decide_ltb; repeat f_equal; Z.div_mod_to_equations; lia.
Qed.

Lemma encode_four (b1 b2 b3 b4 : Z) :
  240 <= b1 < 245 -> 128 <= b2 < 192 -> (b1 = 240 -> 144 <= b2) ->
  128 <= b3 < 192 -> 128 <= b4 < 192 ->
  utf8_encode_cp ((b1 - 240) * 262144 + (b2 - 128) * 4096
                  + (b3 - 128) * 64 + (b4 - 128))
  = [b1; b2; b3; b4].
Proof.
  intros H1 H2 H2' H3 H4. unfold utf8_encode_cp.
  assert (b1 = 240 \/ 241 <= b1) as [-> | Hb] by lia;
    decide_ltb; repeat f_equal; Z.div_mod_to_equations; lia.
Qed.

Lemma units_Some (c : Z) (l : list (option Z)) :
  utf8_encode (omap id (Some c :: l))
  = utf8_encode_cp c ++ utf8_encode (omap id l).
Proof. reflexivity. Qed.

Lemma units_None (l : list (option Z)) :
  omap id (None :: l) = omap id l.
Proof. reflexivity. Qed.

(** Decoding with [errors="ignore"] only deletes bytes: the encoding of
    the text it gives is what is left of the input. *)
Lemma utf8_units_sublist (bs : list Z) :
  utf8_encode (omap id (utf8_units bs)) `sublist_of` bs.
Proof.
  remember (length bs) as n eqn:Hn.
  assert (Hlen : (length bs <= n)%nat) by lia. clear Hn.
  revert bs Hlen. induction n as [| n IH]; intros bs Hlen.
  { destruct bs; [constructor | simpl in Hlen; lia]. }
  destruct bs as [| b1 r1]; [constructor |]. simpl in Hlen.
  assert (IH1 : utf8_encode (omap id (utf8_units r1)) `sublist_of` r1)
    by (apply IH; lia).
  cbn [utf8_units].
  destruct (b1 <? 128) eqn:C1.
  { rewrite units_Some, encode_one by lia. by apply sublist_skip. }
  destruct (b1 <? 194) eqn:C2.
  { rewrite units_None. by apply sublist_cons. }
  destruct r1 as [| b2 r2]; [destruct (b1 <? 224), (b1 <? 240), (b1 <? 245);
                             apply sublist_nil_l |].
  simpl in Hlen.
  assert (IH2 : utf8_encode (omap id (utf8_units r2)) `sublist_of` r2)
    by (apply IH; lia).
  destruct (b1 <? 224) eqn:C3.
  { destruct (is_cont b2) eqn:K2.
    - apply is_cont_range in K2.
      rewrite units_Some, encode_two by lia.
      by do 2 apply sublist_skip.
    - rewrite units_None. by apply sublist_cons. }
  destruct (b1 <? 240) eqn:C4.
  { destruct (second_ok b1 b2) eqn:K2;
      [| rewrite units_None; by apply sublist_cons].
    apply second_ok_range in K2.
    destruct r2 as [| b3 r3]; [apply sublist_nil_l |]. simpl in Hlen.
    destruct (is_cont b3) eqn:K3.
    - apply is_cont_range in K3.
      rewrite units_Some, encode_three by lia.
      do 3 apply sublist_skip. apply IH. lia.
    - rewrite units_None. by do 2 apply sublist_cons. }
  destruct (b1 <? 245) eqn:C5; [| rewrite units_None; by apply sublist_cons].
  destruct (second_ok b1 b2) eqn:K2;
    [| rewrite units_None; by apply sublist_cons].
  apply second_ok_range in K2.
  destruct r2 as [| b3 r3]; [apply sublist_nil_l |]. simpl in Hlen.
  assert (IH3 : utf8_encode (omap id (utf8_units r3)) `sublist_of` r3)
    by (apply IH; lia).
  destruct (is_cont b3) eqn:K3;
    [| rewrite units_None; by do 2 apply sublist_cons].
  apply is_cont_range in K3.
  destruct r3 as [| b4 r4]; [apply sublist_nil_l |]. simpl in Hlen.
  destruct (is_cont b4) eqn:K4.
  - apply is_cont_range in K4.
    rewrite units_Some, encode_four by lia.
    do 4 apply sublist_skip. apply IH. lia.
  - rewrite units_None. by do 3 apply sublist_cons.
Qed.

Lemma is_cont_true (b : Z) : 128 <= b < 192 -> is_cont b = true.
Proof. unfold is_cont. lia. Qed.

Lemma second_ok_true (b1 b2 : Z) :
  128 <= b2 < 192 ->
  (b1 = 224 -> 160 <= b2) -> (b1 = 237 -> b2 < 160) ->
  (b1 = 240 -> 144 <= b2) -> (b1 = 244 -> b2 < 144) ->
  second_ok b1 b2 = true.
Proof.
  intros H A B C D. unfold second_ok. rewrite is_cont_true by exact H.
  destruct (b1 =? 224) eqn:E1; [lia |].
  destruct (b1 =? 237) eqn:E2; [lia |].
  destruct (b1 =? 240) eqn:E3; [lia |].
  destruct (b1 =? 244) eqn:E4; lia.
Qed.

(** A scalar value is read back from its encoding. *)
Lemma utf8_units_encode_cp (c : Z) (rest : list Z) :
  scalar c ->
  utf8_units (utf8_encode_cp c ++ rest) = Some c :: utf8_units rest.
Proof.
  intros [Hc Hs]. unfold utf8_encode_cp.
  destruct (c <? 128) eqn:C1.
  { cbn [app utf8_units]. rewrite C1. reflexivity. }
  destruct (c <? 2048) eqn:C2.
  { set (q := c / 64). set (r := c mod 64).
    assert (c = 64 * q + r /\ 0 <= r < 64) as [Hq Hr]
      by (subst q r; Z.div_mod_to_equations; lia).
    cbn [app utf8_units]. decide_ltb.
    rewrite is_cont_true by lia. do 2 f_equal. lia. }
  destruct (c <? 65536) eqn:C3.
  { set (q1 := c / 4096). set (q2 := (c / 64) mod 64). set (r := c mod 64).
    assert (c = 4096 * q1 + 64 * q2 + r /\ 0 <= q2 < 64 /\ 0 <= r < 64)
      as (Hq & Hq2 & Hr)
      by (subst q1 q2 r; Z.div_mod_to_equations; lia).
    cbn [app utf8_units]. decide_ltb.
    rewrite second_ok_true by lia.
    rewrite is_cont_true by lia. do 2 f_equal. lia. }
  set (q1 := c / 262144). set (q2 := (c / 4096) mod 64).
  set (q3 := (c / 64) mod 64). set (r := c mod 64).
  assert (c = 262144 * q1 + 4096 * q2 + 64 * q3 + r
          /\ 0 <= q2 < 64 /\ 0 <= q3 < 64 /\ 0 <= r < 64)
    as (Hq & Hq2 & Hq3 & Hr)
    by (subst q1 q2 q3 r; Z.div_mod_to_equations; lia).
  cbn [app utf8_units]. decide_ltb.
  rewrite second_ok_true by lia.
  rewrite !is_cont_true by lia. do 2 f_equal. lia.
Qed.

Lemma utf8_units_encode (s : list Z) :
  Forall scalar s -> utf8_units (utf8_encode s) = List.map Some s.
Proof.
  induction 1 as [| c s Hc _ IH]; [reflexivity |].
  change (utf8_encode (c :: s)) with (utf8_encode_cp c ++ utf8_encode s).
  rewrite utf8_units_encode_cp by exact Hc. simpl. by rewrite IH.
Qed.

Lemma omap_id_Some (s : list Z) : omap id (List.map Some s) = s.
Proof.
  induction s as [| c s IH]; [reflexivity |].
  change (c :: omap id (List.map Some s) = c :: s). f_equal. exact IH.
Qed.






(** * Further properties *)

(** ** Deleting a workspace *)

(** X1.  [shutil.rmtree(tmp_dir, onerror=on_rm_error)] on a directory
    either returns and the directory is gone, or raises and the directory
    is still on disk; no other entry of the disk is touched. *)
Theorem rmtree_removes_or_raises (R : fsrules) (pm : meta) (p : list Z)
    (d : gmap pystr tree) (m : meta) (es : list (list Z * tree)) :
  d !! p = Some (Dir m es) ->
  let out := shutil_rmtree R pm p on_rm_error d in
  (out.1.1 = inr tt /\ out.1.2 = delete p d)
  \/ (exists x t', out.1.1 = inl x /\ out.1.2 = <[p := t']> d).
Proof. exact (shutil_rmtree_outcome R pm p d m es). Qed.

Lemma rmtree_removes_or_raises_witness :
  let p := U "/tmp/ai-review-0" in
  let d : gmap (list Z) tree :=
    {[ p := Dir (Meta 448 false) locked_checkout ]} in
  let out := shutil_rmtree posix_rules (Meta 511 false) p on_rm_error d in
  d !! p = Some (Dir (Meta 448 false) locked_checkout)
  /\ ((out.1.1 = inr tt /\ out.1.2 = delete p d)
      \/ exists x t', out.1.1 = inl x /\ out.1.2 = <[p := t']> d).
Proof.
  intros p d. split; [reflexivity |].
  exact (rmtree_removes_or_raises posix_rules (Meta 511 false) p d
           (Meta 448 false) locked_checkout eq_refl).
Defined.

(** X2.  When the deletion fails inside a directory, the entries before
    the failing one are gone, the failing one is still there, and the
    entries after it are exactly as they were: the walk stops at the first
    failure that the handler does not repair. *)
Theorem rmtree_stops_at_first_failure (R : fsrules) (dm : meta)
    (path : list Z) (es : list (list Z * tree)) :
  let out :=
    rmtree_entries R (rmtree_walk R on_rm_error) on_rm_error dm path es in
  (out.1.1 = inr tt /\ out.1.2 = [])
  \/ (exists x pre name child child' rest,
        out.1.1 = inl x
        /\ es = pre ++ (name, child) :: rest
        /\ out.1.2 = (name, child') :: rest).
Proof. exact (rmtree_stops_or_empties R dm path es). Qed.

(** X3.  The deletion does a bounded amount of work: the number of
    file-system operations it does in all (listings, removals and
    [chmod] calls, retries included) is at most six times the number of
    entries of the workspace, the workspace itself included. *)
Theorem rmtree_work_is_bounded (R : fsrules) (pm : meta) (p : list Z)
    (d : gmap pystr tree) (m : meta) (es : list (list Z * tree)) :
  d !! p = Some (Dir m es) ->
  (length (shutil_rmtree R pm p on_rm_error d).2 <= 6 * nodes (Dir m es))%nat.
Proof.
  intros Hd.
  pose proof (rmtree_walk_length R (Dir m es) pm p m es eq_refl) as H.
  unfold shutil_rmtree. rewrite Hd.
  destruct (rmtree_walk R on_rm_error pm p (Dir m es)) as [[r o] tr].
  exact H.
Qed.

Lemma rmtree_work_is_bounded_witness :
  let p := U "C:\Temp\ai-review-0" in
  let d : gmap (list Z) tree :=
    {[ p := Dir (Meta 448 false) sample_checkout ]} in
  d !! p = Some (Dir (Meta 448 false) sample_checkout)
  /\ (length (shutil_rmtree windows_rules (Meta 511 false) p on_rm_error
                d).2 <= 24)%nat.
Proof.
  intros p d. split; [reflexivity |].
  exact (rmtree_work_is_bounded windows_rules (Meta 511 false) p d
           (Meta 448 false) sample_checkout eq_refl).
Defined.

(** ** The workspace of a remote request *)

(** X4.  A request that is answered with status 200 leaves the disk
    exactly as it found it: a workspace that could not be deleted always
    turns the answer into an error. *)
Theorem review_ok_restores_disk (E : env) (cfg : yaml) (req : ReviewRequest)
    (d : gmap pystr tree) (resp : ReviewResponse) :
  (review E cfg req d).1.1 = Ok200 resp ->
  (review E cfg req d).1.2 = d.
Proof.
  rewrite review_eq. cbn [fst snd]. intros Hok.
  destruct (remote req) eqn:Hr.
  - destruct (resolve_diff_remote E req d Hr)
      as [(H & _ & _)
         | (i & p & k & lst & es & out & _ & _ & Hp & _ & _ & _ & _ & H)];
      rewrite H in *; cbn [fst snd] in *; [reflexivity |].
    destruct (rmtree_walk_outcome (fs E) (Dir (Meta 448 false) es)
                (tempdir_meta E) p _ _ eq_refl)
      as [[H1 H2] | (x & t' & H1 & H2)].
    + rewrite H2. cbn [set_entry]. by apply delete_insert_id.
    + rewrite H1 in Hok. destruct (is_CalledProcessError x) eqn:Hx;
        unfold to_http, review_except in Hok; rewrite Hx in Hok;
        discriminate Hok.
  - rewrite (resolve_diff_local E req d Hr). reflexivity.
Qed.

Lemma review_ok_restores_disk_witness :
  let E := sample_env all_succeed sample_checkout (U "+ x") ∅
             (sample_answer None) in
  let d : gmap (list Z) tree := {[ U "/tmp/other" := fresh_dir ]} in
  (review E sample_cfg sample_remote d).1.1
  = Ok200 {| naming_convention := []; complexity := []; security := [];
             ai_comments := [U "+ x"]; ai_score := 0.5 |}
  /\ (review E sample_cfg sample_remote d).1.2 = d.
Proof.
  intros E d.
  assert (H : (review E sample_cfg sample_remote d).1.1
              = Ok200 {| naming_convention := []; complexity := [];
                         security := []; ai_comments := [U "+ x"];
                         ai_score := 0.5 |})
    by (vm_compute; reflexivity).
  split; [exact H |].
  exact (review_ok_restores_disk E sample_cfg sample_remote d _ H).
Defined.

(** X5.  The workspace of a request is new and named by the service: at
    most one is created per request; it is [<tempdir>/ai-review-<name>]
    for the first of the names [tempfile] draws, [os.TMP_MAX] at most,
    under which nothing exists; every name drawn before it is taken. *)
Theorem workspace_is_fresh_and_named (E : env) (cfg : yaml)
    (req : ReviewRequest) (d : gmap pystr tree) (p : list Z) :
  p ∈ created (review E cfg req d).2 ->
  created (review E cfg req d).2 = [p]
  /\ d !! p = None
  /\ exists i : nat,
       (i < tmp_max E)%nat
       /\ p = path_join (fs E) (tempdir E)
                (U "ai-review-" ++ random_name E i)
       /\ forall i', (i' < i)%nat ->
            is_Some (d !! path_join (fs E) (tempdir E)
                            (U "ai-review-" ++ random_name E i')).
Proof.
  rewrite review_eq. cbn [fst snd]. intros Hin.
  destruct (remote req) eqn:Hr.
  - destruct (resolve_diff_remote E req d Hr)
      as [(H & _ & _)
         | (i & q & k & lst & es & out & Hi & Hbefore & Hq & _ & _ & _
            & _ & H)];
      rewrite H in *; cbn [fst snd] in *; [inversion Hin |].
    pose proof (rmtree_walk_trace (fs E) (Dir (Meta 448 false) es)
                  (tempdir_meta E) q _ _ eq_refl) as (_ & Hcr & _).
    rewrite created_resolution in * by exact Hcr.
    apply list_elem_of_singleton in Hin as ->.
    split; [reflexivity |]. split; [exact Hq |].
    assert (Hlt : (i < tmp_max E)%nat).
    { apply lookup_lt_Some in Hi. unfold candidates in Hi.
      rewrite length_map, length_seq in Hi. exact Hi. }
    rewrite candidates_lookup in Hi by exact Hlt. inversion Hi.
    exists i. split; [exact Hlt |]. split; [reflexivity |].
    intros i' Hi'. apply (Hbefore i'); [exact Hi' |].
    apply candidates_lookup. lia.
  - rewrite (resolve_diff_local E req d Hr) in Hin. inversion Hin.
Qed.

Lemma workspace_is_fresh_and_named_witness :
  let E := sample_env all_succeed sample_checkout (U "+ x") ∅
             (sample_answer None) in
  let d : gmap (list Z) tree := {[ U "/tmp/ai-review-0" := fresh_dir ]} in
  U "/tmp/ai-review-1" ∈ created (review E sample_cfg sample_remote d).2
  /\ d !! U "/tmp/ai-review-1" = None.
Proof.
  intros E d.
  assert (H : U "/tmp/ai-review-1"
              ∈ created (review E sample_cfg sample_remote d).2)
    by (vm_compute; apply list_elem_of_here).
  split; [exact H |].
  exact (proj1 (proj2
    (workspace_is_fresh_and_named E sample_cfg sample_remote d _ H))).
Defined.

(** X6.  A request changes the disk nowhere but at its own workspace:
    every other path holds after the request what it held before, on every
    path through the code, also when git or the deletion fails. *)
Theorem review_touches_only_its_workspace (E : env) (cfg : yaml)
    (req : ReviewRequest) (d : gmap pystr tree) (q : list Z) :
  q ∉ created (review E cfg req d).2 ->
  (review E cfg req d).1.2 !! q = d !! q.
Proof.
  rewrite review_eq. cbn [fst snd]. intros Hq.
  destruct (remote req) eqn:Hr.
  - destruct (resolve_diff_remote E req d Hr)
      as [(H & _ & _)
         | (i & p & k & lst & es & out & _ & _ & Hp & _ & _ & _ & _ & H)];
      rewrite H in *; cbn [fst snd] in *; [reflexivity |].
    pose proof (rmtree_walk_trace (fs E) (Dir (Meta 448 false) es)
                  (tempdir_meta E) p _ _ eq_refl) as (_ & Hcr & _).
    rewrite created_resolution in Hq by exact Hcr.
    assert (Hne : p <> q) by (intros ->; apply Hq, list_elem_of_here).
    destruct ((rmtree_walk (fs E) on_rm_error (tempdir_meta E) p _).1.2)
      as [t' |]; cbn [set_entry].
    + by rewrite !lookup_insert_ne.
    + by rewrite lookup_delete_ne, lookup_insert_ne.
  - rewrite (resolve_diff_local E req d Hr). reflexivity.
Qed.

Lemma review_touches_only_its_workspace_witness :
  let E := windows_env (fails_at "clone") held_checkout [] ∅
             (sample_answer None) in
  let d : gmap (list Z) tree :=
    {[ U "C:\Temp\other" := Dir (Meta 292 false) sample_checkout ]} in
  (U "C:\Temp\other" ∉ created (review E sample_cfg sample_remote d).2)
  /\ (review E sample_cfg sample_remote d).1.2 !! U "C:\Temp\other"
     = d !! U "C:\Temp\other".
Proof.
  intros E d.
  assert (H : U "C:\Temp\other"
              ∉ created (review E sample_cfg sample_remote d).2).
  { vm_compute. intros Hin. apply list_elem_of_singleton in Hin.
    discriminate Hin. }
  split; [exact H |].
  exact (review_touches_only_its_workspace E sample_cfg sample_remote d _ H).
Defined.

(** X7.  When every name [tempfile] tries is taken, a remote request is
    answered 500 with the text of [tempfile]'s [FileExistsError]; no git
    command is run, nothing is deleted and the disk is not touched. *)
Theorem review_without_free_name (E : env) (cfg : yaml)
    (req : ReviewRequest) (d : gmap pystr tree) :
  remote req = true ->
  (forall q, q ∈ candidates E -> is_Some (d !! q)) ->
  review E cfg req d
  = (HttpError 500
       (U "[Errno 17] No usable temporary directory name found"), d, []).
Proof.
  intros Hr Hall. rewrite review_eq.
  destruct (resolve_diff_remote E req d Hr)
    as [(H & _ & _) | (i & p & k & lst & es & out & Hi & _ & Hp & _)].
  - rewrite H. reflexivity.
  - apply list_elem_of_lookup_2 in Hi.
    destruct (Hall p Hi) as [t Ht]. congruence.
Qed.

Lemma candidates_stale (name : list Z) (q : list Z) :
  q ∈ candidates (stale_env name) ->
  q = U "/tmp/ai-review-" ++ name.
Proof.
  intros Hin. apply candidates_elem in Hin as (j & _ & ->). reflexivity.
Qed.

Lemma review_without_free_name_witness :
  let d : gmap (list Z) tree := {[ U "/tmp/ai-review-x" := fresh_dir ]} in
  remote sample_remote = true
  /\ (forall q, q ∈ candidates (stale_env (U "x")) -> is_Some (d !! q))
  /\ review (stale_env (U "x")) sample_cfg sample_remote d
     = (HttpError 500
          (U "[Errno 17] No usable temporary directory name found"), d, []).
Proof.
  intros d.
  assert (Hr : remote sample_remote = true) by reflexivity.
  assert (Hall : forall q, q ∈ candidates (stale_env (U "x")) ->
                   is_Some (d !! q)).
  { intros q Hq. apply candidates_stale in Hq as ->.
    eexists. reflexivity. }
  split; [exact Hr |]. split; [exact Hall |].
  exact (review_without_free_name (stale_env (U "x")) sample_cfg
           sample_remote d Hr Hall).
Defined.

(** ** The course of a review *)



(** A request in a world without a git client: the clone fails to start,
    the workspace is deleted, and the answer is a 500 without the git
    prefix. *)
Lemma review_without_git :
  review no_git_env sample_cfg sample_remote ∅
  = (HttpError 500 (U "[Errno 2] No such file or directory: 'git'"), ∅,
     [ EvMkdtemp (U "/tmp/ai-review-0");
       EvNoSpawn [U "git"; U "clone"; U "--depth"; U "1";
                  U "https://example.org/r.git"; U "/tmp/ai-review-0"] None;
       EvList (U "/tmp/ai-review-0") true;
       EvRmdir (U "/tmp/ai-review-0") true ]).
Proof. vm_compute. reflexivity. Qed.



(** X10.  A usable (repo_url, pr_number) pair takes precedence: the [diff]
    field of such a request is never read, so the answer, the disk and the
    trace are the same whatever it holds. *)
Theorem remote_ignores_diff (E : env) (cfg : yaml) (req : ReviewRequest)
    (d : gmap pystr tree) (x : option (list Z)) :
  remote req = true ->
  review E cfg (with_diff req x) d = review E cfg req d.
Proof.
  intros Hr. destruct req as [df url pr b]. unfold remote, with_diff in *.
  cbn [diff repo_url pr_number base] in *.
  unfold review, review_body, resolve_diff, git_diff, analyse.
  cbn [diff repo_url pr_number base]. rewrite Hr. reflexivity.
Qed.

Lemma remote_ignores_diff_witness :
  let E := sample_env all_succeed sample_checkout (U "+ x") ∅
             (sample_answer None) in
  remote sample_remote = true
  /\ review E sample_cfg (with_diff sample_remote (Some (U "- y"))) ∅
     = review E sample_cfg sample_remote ∅.
Proof.
  intros E. split; [reflexivity |].
  exact (remote_ignores_diff E sample_cfg sample_remote ∅
           (Some (U "- y")) eq_refl).
Defined.

(** X11.  On a request without a usable remote the backends are asked in
    order, rules first.  When the rule backend raises, the answer is a 500
    carrying that exception's text, whatever the AI section of the
    configuration and the AI backend are; when the rule backend returns
    and the AI backend raises, it is the AI backend's exception.  Nothing
    is run and the disk is untouched. *)
Theorem backend_failure_is_reported (E : env) (cfg : yaml)
    (req : ReviewRequest) (d : gmap pystr tree) (rules_cfg : yaml)
    (e : exn) :
  remote req = false ->
  getitem cfg (U "rules") = inr rules_cfg ->
  (run_rule_checks E (default [] (diff req)) rules_cfg (repo_url req)
     (pr_number req) (base req) = inl e
   \/ exists rules ai_cfg,
        run_rule_checks E (default [] (diff req)) rules_cfg (repo_url req)
          (pr_number req) (base req) = inr rules
        /\ getitem cfg (U "ai_review") = inr ai_cfg
        /\ run_ai_review E (default [] (diff req)) ai_cfg = inl e) ->
  is_CalledProcessError e = false ->
  review E cfg req d = (HttpError 500 (str_exn e), d, []).
Proof.
  intros Hr H1 H Hcpe. rewrite review_eq, (resolve_diff_local E req d Hr).
  cbn [fst snd]. unfold analyse. se_unfold. rewrite H1. simpl.
  destruct H as [H | (rules & ai_cfg & H2 & H3 & H4)].
  - rewrite H. simpl. unfold review_except. rewrite Hcpe. reflexivity.
  - rewrite H2. simpl. rewrite H3. simpl. rewrite H4. simpl.
    unfold review_except. rewrite Hcpe. reflexivity.
Qed.

Lemma backend_failure_is_reported_witness :
  let e := OtherError (U "rule engine crashed") in
  let E := failing_env (Some e) None in
  remote sample_local = false
  /\ review E sample_cfg sample_local ∅
     = (HttpError 500 (U "rule engine crashed"), ∅, []).
Proof.
  intros e E. split; [reflexivity |].
  exact (backend_failure_is_reported E sample_cfg sample_local ∅ (YMap ∅) e
           eq_refl eq_refl (or_introl eq_refl) eq_refl).
Defined.

(** X12.  The git label is given by the kind of exception, not by where it
    was raised: a [CalledProcessError] raised by a backend on a request
    without a remote is answered with ["Git error: ..."] although no git
    command was run. *)
Theorem backend_process_error_is_labelled_git (E : env) (cfg : yaml)
    (req : ReviewRequest) (d : gmap pystr tree) (rules_cfg : yaml)
    (cmd : list (list Z)) (rc : Z) :
  remote req = false ->
  getitem cfg (U "rules") = inr rules_cfg ->
  run_rule_checks E (default [] (diff req)) rules_cfg (repo_url req)
    (pr_number req) (base req) = inl (CalledProcessError cmd rc) ->
  (review E cfg req d).1.1
  = HttpError 500 (U "Git error: " ++ str_exn (CalledProcessError cmd rc))
  /\ spawned (review E cfg req d).2 = [].
Proof.
  intros Hr H1 H. rewrite review_eq, (resolve_diff_local E req d Hr).
  cbn [fst snd]. unfold analyse. se_unfold. rewrite H1. simpl.
  rewrite H. split; reflexivity.
Qed.

Lemma backend_process_error_is_labelled_git_witness :
  let e := CalledProcessError [U "ruff"; U "check"] 2 in
  let E := failing_env (Some e) None in
  remote sample_local = false
  /\ (review E sample_cfg sample_local ∅).1.1
     = HttpError 500 (U "Git error: " ++ str_exn e).
Proof.
  intros e E. split; [reflexivity |].
  exact (proj1 (backend_process_error_is_labelled_git E sample_cfg
                  sample_local ∅ (YMap ∅) [U "ruff"; U "check"] 2
                  eq_refl eq_refl eq_refl)).
Defined.

(** ** Inline suggestions, further *)

(** X14.  With an ["ai_review"] section that is a mapping, the chat call
    is made with the section's model and temperature, each replaced by its
    default ("gpt-4o-mini", 0.2) when the section does not have it, and
    with 100 tokens; the answer is made from that call. *)
Theorem configured_options_are_used (E : env) (m sec : gmap pystr yaml)
    (req : InlineSuggestionRequest) :
  m !! U "ai_review" = Some (YMap sec) ->
  let model := default (YStr (U "gpt-4o-mini")) (sec !! U "model") in
  let temperature := default (YFloat 0.2) (sec !! U "temperature") in
  chat_options (YMap m) = inr (model, temperature, 100)
  /\ inline_suggestion E (YMap m) req
     = to_http inline_except
         (match chat_create E model (prompt req) temperature 100 with
          | inl e => inl e
          | inr response => suggestion_of response
          end).
Proof.
  intros H model temperature.
  assert (Ho : chat_options (YMap m) = inr (model, temperature, 100)).
  { unfold chat_options, dict_get. rewrite H. reflexivity. }
  split; [exact Ho |].
  unfold inline_suggestion.
  rewrite (inline_body_options E _ req _ _ _ Ho). reflexivity.
Qed.

Lemma configured_options_are_used_witness :
  let sec : gmap (list Z) yaml := {[ U "model" := YStr (U "gpt-4o") ]} in
  let m : gmap (list Z) yaml := {[ U "ai_review" := YMap sec ]} in
  m !! U "ai_review" = Some (YMap sec)
  /\ chat_options (YMap m) = inr (YStr (U "gpt-4o"), YFloat 0.2, 100).
Proof.
  intros sec m. split; [reflexivity |].
  exact (proj1 (configured_options_are_used
                  (stale_env []) m sec sample_line eq_refl)).
Defined.

(** X15.  When the configuration, or its ["ai_review"] entry, is not a
    mapping (an empty [config.yaml] loads as [None]; [ai_review:] without
    a value too), every inline-suggestion request is answered 500: with
    the text of the [AttributeError] of the [get] call when the [openai]
    library could be imported, and what the AI service would have
    answered plays no part; with the text of the import's exception when
    it could not. *)
Theorem options_need_a_mapping (E : env) (cfg v : yaml)
    (req : InlineSuggestionRequest) :
  (forall sec, v <> YMap sec) ->
  cfg = v \/ (exists m, cfg = YMap m /\ m !! U "ai_review" = Some v) ->
  inline_suggestion E cfg req
  = HttpError 500
      match openai E with
      | inl e => str_exn e
      | inr _ => U "'" ++ type_name v ++ U "' object has no attribute 'get'"
      end.
Proof.
  intros Hv [-> | (m & -> & Hm)];
    unfold inline_suggestion, inline_suggestion_body, chat_options, dict_get;
    rewrite ?Hm; cbn [default];
    (destruct (openai E) as [e | create]; [reflexivity |]);
    destruct v; try reflexivity; exfalso; eapply Hv; reflexivity.
Qed.

Lemma options_need_a_mapping_witness :
  let m : gmap (list Z) yaml := {[ U "ai_review" := YNull ]} in
  (forall sec, YNull <> YMap sec)
  /\ inline_suggestion (stale_env []) (YMap m) sample_line
     = HttpError 500 (U "'NoneType' object has no attribute 'get'").
Proof.
  intros m.
  assert (Hv : forall sec, YNull <> YMap sec) by (intros sec; discriminate).
  split; [exact Hv |].
  exact (options_need_a_mapping (stale_env []) (YMap m) YNull sample_line Hv
           (or_intror (ex_intro _ m (conj eq_refl eq_refl)))).
Defined.

(** X16.  Failures of the AI service come back verbatim: when the chat
    call raises, the answer is a 500 with that exception's text; when it
    returns no choice at all, the answer is a 500 with the text of the
    [IndexError]. *)
Theorem chat_failure_is_reported (E : env) (cfg : yaml)
    (req : InlineSuggestionRequest) (model temperature : yaml)
    (max_tokens : Z) :
  chat_options cfg = inr (model, temperature, max_tokens) ->
  (forall e,
     chat_create E model (prompt req) temperature max_tokens = inl e ->
     inline_suggestion E cfg req = HttpError 500 (str_exn e))
  /\ (chat_create E model (prompt req) temperature max_tokens
      = inr {| choices := [] |} ->
      inline_suggestion E cfg req
      = HttpError 500 (U "list index out of range")).
Proof.
  intros Ho. unfold inline_suggestion.
  rewrite (inline_body_options E _ req _ _ _ Ho).
  split; [intros e H | intros H]; rewrite H; reflexivity.
Qed.

Lemma chat_failure_is_reported_witness :
  chat_options sample_cfg = inr (YStr (U "gpt-4o-mini"), YFloat 0.2, 100)
  /\ inline_suggestion (stale_env []) sample_cfg sample_line
     = HttpError 500 (U "offline").
Proof.
  split; [reflexivity |].
  exact (proj1 (chat_failure_is_reported (stale_env []) sample_cfg
                  sample_line _ _ _ eq_refl) _ eq_refl).
Defined.

(** X17.  A 200 answer carries the content of the first choice with a run
    of white space cut at each end: the content is a blank prefix, the
    suggestion, a blank suffix; the suggestion neither starts nor ends with
    white space; it is empty exactly when the content is all white space.
    Later choices are not looked at. *)
Theorem suggestion_is_the_trimmed_content (E : env) (cfg : yaml)
    (req : InlineSuggestionRequest) (model temperature : yaml)
    (max_tokens : Z) (c : chat_choice) (cs : list chat_choice)
    (text : list Z) :
  chat_options cfg = inr (model, temperature, max_tokens) ->
  chat_create E model (prompt req) temperature max_tokens
    = inr {| choices := c :: cs |} ->
  choice_content c = Some text ->
  text <> [] ->
  exists s l r,
    inline_suggestion E cfg req = Ok200 {| suggestedText := s |}
    /\ text = l ++ s ++ r /\ blank l /\ blank r
    /\ (forall ch, head s = Some ch -> isspace ch = false)
    /\ (forall ch, last s = Some ch -> isspace ch = false)
    /\ (s = [] <-> blank text).
Proof.
  intros Ho Hc Hcontent Hne.
  destruct (strip_spec text) as (l & r & Hs & Hl & Hr & Hh & Hla).
  exists (strip text), l, r.
  split; [exact (inline_suggestion_trimmed E cfg req model temperature
                   max_tokens c cs text Ho Hc Hcontent Hne) |].
  repeat split; try assumption; apply strip_empty_iff.
Qed.

Lemma suggestion_is_the_trimmed_content_witness :
  let E := sample_env all_succeed [] [] ∅
             (sample_answer (Some (U "  x = 1  "))) in
  exists s l r,
    inline_suggestion E sample_cfg sample_line
    = Ok200 {| suggestedText := s |}
    /\ U "  x = 1  " = l ++ s ++ r /\ blank l /\ blank r
    /\ (forall ch, head s = Some ch -> isspace ch = false)
    /\ (forall ch, last s = Some ch -> isspace ch = false)
    /\ (s = [] <-> blank (U "  x = 1  ")).
Proof.
  intros E.
  assert (Hne : U "  x = 1  " <> []) by discriminate.
  exact (suggestion_is_the_trimmed_content E sample_cfg sample_line
           (YStr (U "gpt-4o-mini")) (YFloat 0.2) 100
           {| message := Some {| content := Some (U "  x = 1  ") |} |} []
           (U "  x = 1  ") eq_refl eq_refl eq_refl Hne).
Defined.

(** ** The decoded diff, further *)

Lemma omap_id_cons (c : Z) (l : list (option Z)) :
  omap id (Some c :: l) = c :: omap id l.
Proof. reflexivity. Qed.

Lemma utf8_units_scalar (bs : list Z) :
  Forall (fun b => 0 <= b < 256) bs ->
  Forall scalar (omap id (utf8_units bs)).
Proof.
  remember (length bs) as n eqn:Hn.
  assert (Hlen : (length bs <= n)%nat) by lia. clear Hn.
  revert bs Hlen. induction n as [| n IH]; intros bs Hlen Hbs.
  { destruct bs; [constructor | simpl in Hlen; lia]. }
  destruct bs as [| b1 r1]; [constructor |]. simpl in Hlen.
  apply Forall_cons_1 in Hbs as [Hb1 Hr1].
  assert (IH1 : Forall scalar (omap id (utf8_units r1))) by (apply IH; [lia | done]).
  cbn [utf8_units].
  destruct (b1 <? 128) eqn:C1.
  { rewrite omap_id_cons. constructor; [unfold scalar; lia | exact IH1]. }
  destruct (b1 <? 194) eqn:C2; [rewrite units_None; exact IH1 |].
  destruct r1 as [| b2 r2]; [destruct (b1 <? 224), (b1 <? 240), (b1 <? 245);
                             constructor |].
  simpl in Hlen. apply Forall_cons_1 in Hr1 as [Hb2 Hr2].
  assert (IH2 : Forall scalar (omap id (utf8_units r2))) by (apply IH; [lia | done]).
  destruct (b1 <? 224) eqn:C3.
  { destruct (is_cont b2) eqn:K2; [| rewrite units_None; exact IH1].
    apply is_cont_range in K2. rewrite omap_id_cons.
    constructor; [unfold scalar; lia | exact IH2]. }
  destruct (b1 <? 240) eqn:C4.
  { destruct (second_ok b1 b2) eqn:K2; [| rewrite units_None; exact IH1].
    apply second_ok_range in K2.
    destruct r2 as [| b3 r3]; [constructor |]. simpl in Hlen.
    apply Forall_cons_1 in Hr2 as [Hb3 Hr3].
    destruct (is_cont b3) eqn:K3; [| rewrite units_None; exact IH2].
    apply is_cont_range in K3. rewrite omap_id_cons.
    constructor; [unfold scalar; lia | apply IH; [lia | done]]. }
  destruct (b1 <? 245) eqn:C5; [| rewrite units_None; exact IH1].
  destruct (second_ok b1 b2) eqn:K2; [| rewrite units_None; exact IH1].
  apply second_ok_range in K2.
  destruct r2 as [| b3 r3]; [constructor |]. simpl in Hlen.
  apply Forall_cons_1 in Hr2 as [Hb3 Hr3].
  assert (IH3 : Forall scalar (omap id (utf8_units r3))) by (apply IH; [lia | done]).
  destruct (is_cont b3) eqn:K3; [| rewrite units_None; exact IH2].
  apply is_cont_range in K3.
  destruct r3 as [| b4 r4]; [constructor |]. simpl in Hlen.
  apply Forall_cons_1 in Hr3 as [Hb4 Hr4].
  destruct (is_cont b4) eqn:K4; [| rewrite units_None; exact IH3].
  apply is_cont_range in K4. rewrite omap_id_cons.
  constructor; [unfold scalar; lia | apply IH; [lia | done]].
Qed.

Lemma utf8_encode_length (s : list Z) :
  (length s <= length (utf8_encode s))%nat.
Proof.
  induction s as [| c s IH]; [reflexivity |].
  change (utf8_encode (c :: s)) with (utf8_encode_cp c ++ utf8_encode s).
  rewrite length_app. unfold utf8_encode_cp.
  destruct (c <? 128), (c <? 2048), (c <? 65536); simpl; lia.
Qed.

(** X18.  The diff text is always well-formed Unicode: every character of
    it is a scalar value (no surrogate, nothing beyond U+10FFFF, no
    overlong form is accepted), and it has at most as many characters as
    the output of git has bytes. *)
Theorem decoded_text_is_unicode (bs s : list Z) :
  Forall (fun b => 0 <= b < 256) bs ->
  bytes_decode Ignore bs = inr s ->
  Forall scalar s /\ (length s <= length bs)%nat.
Proof.
  intros Hbs [= <-]. split; [by apply utf8_units_scalar |].
  etransitivity; [apply utf8_encode_length |].
  apply sublist_length, utf8_units_sublist.
Qed.

Lemma decoded_text_is_unicode_witness :
  Forall (fun b => 0 <= b < 256) [237; 160; 128; 104; 192; 175]
  /\ Forall scalar (U "h")
  /\ (length (U "h") <= 6)%nat.
Proof.
  assert (Hbs : Forall (fun b => 0 <= b < 256) [237; 160; 128; 104; 192; 175])
    by (repeat constructor; lia).
  split; [exact Hbs |].
  exact (decoded_text_is_unicode [237; 160; 128; 104; 192; 175] (U "h")
           Hbs eq_refl).
Defined.

Lemma utf8_units_encode_app (t bs : list Z) :
  Forall scalar t ->
  utf8_units (utf8_encode t ++ bs) = List.map Some t ++ utf8_units bs.
Proof.
  induction 1 as [| c t Hc _ IH]; [reflexivity |].
  change (utf8_encode (c :: t)) with (utf8_encode_cp c ++ utf8_encode t).
  rewrite <- app_assoc, utf8_units_encode_cp by exact Hc.
  simpl. by rewrite IH.
Qed.

(** X19.  Valid text around a byte that can start no character is kept
    whole, and the byte leaves no mark: the encoding of [t1], then such a
    byte, then the encoding of [t2], decodes to [t1] followed by [t2]. *)
Theorem stray_byte_vanishes (t1 t2 : list Z) (b : Z) :
  Forall scalar t1 -> Forall scalar t2 ->
  128 <= b < 194 \/ 245 <= b ->
  bytes_decode Ignore (utf8_encode t1 ++ b :: utf8_encode t2)
  = inr (t1 ++ t2).
Proof.
  intros H1 H2 Hb. unfold bytes_decode. f_equal.
  rewrite utf8_units_encode_app by exact H1.
  assert (Hnone : utf8_units (b :: utf8_encode t2)
                  = None :: utf8_units (utf8_encode t2)).
  { cbn [utf8_units]. destruct Hb; decide_ltb; reflexivity. }
  rewrite Hnone, utf8_units_encode by exact H2.
  rewrite omap_app, omap_id_Some, units_None, omap_id_Some. reflexivity.
Qed.

Lemma stray_byte_vanishes_witness :
  Forall scalar [233; 8364] /\ Forall scalar [128512]
  /\ bytes_decode Ignore
       (utf8_encode [233; 8364] ++ 255 :: utf8_encode [128512])
     = inr ([233; 8364] ++ [128512]).
Proof.
  assert (H1 : Forall scalar [233; 8364])
    by (repeat constructor; unfold scalar; lia).
  assert (H2 : Forall scalar [128512])
    by (repeat constructor; unfold scalar; lia).
  assert (Hb : 128 <= 255 < 194 \/ 245 <= 255) by (right; lia).
  split; [exact H1 |]. split; [exact H2 |].
  exact (stray_byte_vanishes [233; 8364] [128512] 255 H1 H2 Hb).
Defined.


(** ** When the deletion fails *)

Lemma windows_removable (pm m : meta) :
  removable_entry windows_rules pm m = negb (busy m).
Proof.
  unfold removable_entry, windows_rules, S_IWRITE.
  cbn [can_remove can_chmod chmod_result mode busy].
  change (Z.testbit 128 7) with true. cbn [andb].
  rewrite Z.lor_spec. change (Z.testbit 146 7) with true.
  rewrite orb_true_r.
  destruct (Z.testbit (mode m) 7), (busy m); reflexivity.
Qed.

Lemma no_busy_Dir (m : meta) (es : list (list Z * tree)) :
  no_busy (Dir m es) = negb (busy m) && no_busy_entries es.
Proof.
  simpl. f_equal. unfold no_busy_entries.
  induction es as [| [n c] es IH]; simpl; [reflexivity |]. by rewrite IH.
Qed.

Lemma windows_clearable (t : tree) :
  forall pm : meta, clearable windows_rules pm t = no_busy t.
Proof.
  induction t as [m | m es IH] using tree_ind'; intros pm.
  - apply windows_removable.
  - rewrite clearable_Dir, no_busy_Dir, windows_removable.
    cbn [can_list windows_rules andb].
    rewrite andb_comm. f_equal.
    unfold clearable_entries, no_busy_entries.
    induction IH as [| [n c] es Hc _ IHes]; [reflexivity |].
    cbn [forallb snd] in *. rewrite IHes, (Hc m). reflexivity.
Qed.

(** X20.  On Windows, where the pack files of a clone are read-only, the
    deletion of a workspace succeeds whenever no entry of it is in use by
    another process: read-only entries, at any depth, do not make it
    fail, and the directory is gone afterwards. *)
Theorem read_only_entries_are_deleted_on_windows (pm : meta) (p : list Z)
    (d : gmap pystr tree) (m : meta) (es : list (list Z * tree)) :
  d !! p = Some (Dir m es) ->
  no_busy (Dir m es) = true ->
  (shutil_rmtree windows_rules pm p on_rm_error d).1 = (inr tt, delete p d).
Proof.
  intros Hd Hb. rewrite <- (windows_clearable _ pm) in Hb.
  destruct (shutil_rmtree_clearable windows_rules pm p d m es Hd Hb)
    as [tr ->].
  reflexivity.
Qed.

Lemma read_only_entries_are_deleted_on_windows_witness :
  let p := U "C:\Temp\ai-review-0" in
  let d : gmap (list Z) tree :=
    {[ p := Dir (Meta 448 false) sample_checkout ]} in
  d !! p = Some (Dir (Meta 448 false) sample_checkout)
  /\ no_busy (Dir (Meta 448 false) sample_checkout) = true
  /\ (shutil_rmtree windows_rules (Meta 511 false) p on_rm_error d).1
     = (inr tt, delete p d).
Proof.
  intros p d. split; [reflexivity |]. split; [reflexivity |].
  exact (read_only_entries_are_deleted_on_windows (Meta 511 false) p d
           (Meta 448 false) sample_checkout eq_refl eq_refl).
Defined.


